(** * books_scraper.py: the crawl-and-extract engine

    A shallow embedding of [src/books_scraper.py]: the field parsers
    ([parse_price], [parse_rating], [parse_availability]), the link resolver it
    calls ([urllib.parse.urljoin]) and the crawl loop [scrape_books].

    Python [str] values are sequences of Unicode code points; they are lists of
    [N] here.  The network is an explicit function from URLs to documents, and
    the fetches a run performs are logged in the state that the crawl threads
    through.  A Python exception is a value of [exn], a Python float an
    IEEE 754 binary64 number. *)

From Stdlib Require Import List NArith ZArith QArith Bool String Ascii.
From Stdlib Require Import Lia Arith Relations SpecFloat.
Import ListNotations.

Close Scope Q_scope.
Local Open Scope N_scope.

(** ** Text *)

Definition char := N.
Definition text := list char.

(** A literal: every character of the Rocq string is the code point of the
    same number (all literals of this file are ASCII). *)
Definition str (s : string) : text := map N_of_ascii (list_ascii_of_string s).

Fixpoint eqb_text (s t : text) : bool :=
  match s, t with
  | [], [] => true
  | c :: s', d :: t' => (c =? d) && eqb_text s' t'
  | _, _ => false
  end.

Definition is_empty (s : text) : bool :=
  match s with [] => true | _ :: _ => false end.

(** [c in s] for a one-character [c]. *)
Definition contains (c : char) (s : text) : bool := existsb (N.eqb c) s.

(** [s.replace(c, "")] for a one-character [c]. *)
Definition remove_char (c : char) (s : text) : text :=
  filter (fun d => negb (d =? c)) s.

Fixpoint drop_while (p : char -> bool) (s : text) : text :=
  match s with
  | [] => []
  | c :: s' => if p c then drop_while p s' else s
  end.

Fixpoint take_while (p : char -> bool) (s : text) : text :=
  match s with
  | [] => []
  | c :: s' => if p c then c :: take_while p s' else []
  end.

(** [s.find(c)]: the index of the first [c], [None] for Python's -1. *)
Fixpoint find_char (c : char) (s : text) : option nat :=
  match s with
  | [] => None
  | d :: s' => if d =? c then Some O
               else match find_char c s' with
                    | Some i => Some (S i)
                    | None => None
                    end
  end.

(** [s.find(c, start)], the index counted from the start of [s]. *)
Definition find_char_from (c : char) (start : nat) (s : text) : option nat :=
  match find_char c (skipn start s) with
  | Some i => Some (start + i)%nat
  | None => None
  end.

(** [s.rfind(c)]. *)
Fixpoint rfind_char (c : char) (s : text) : option nat :=
  match s with
  | [] => None
  | d :: s' => match rfind_char c s' with
               | Some i => Some (S i)
               | None => if d =? c then Some O else None
               end
  end.

(** [s.split(c)]: never empty, one more piece than there are [c]s. *)
Fixpoint split_on (c : char) (s : text) : list text :=
  match s with
  | [] => [[]]
  | d :: s' =>
      if d =? c then [] :: split_on c s'
      else match split_on c s' with
           | piece :: pieces => (d :: piece) :: pieces
           | [] => [[d]]
           end
  end.

(** [c.join(pieces)]. *)
Fixpoint join (c : char) (pieces : list text) : text :=
  match pieces with
  | [] => []
  | [piece] => piece
  | piece :: rest => piece ++ c :: join c rest
  end.

(** ** Unicode data

    The two character properties the script depends on, as the Unicode
    Character Database 14.0.0 has them (the tables of CPython 3.11). *)

(** [str.isspace] on one character. *)
Definition whitespace_points : list N :=
  [9; 10; 11; 12; 13; 28; 29; 30; 31; 32; 133; 160; 5760; 8192; 8193; 8194;
   8195; 8196; 8197; 8198; 8199; 8200; 8201; 8202; 8232; 8233; 8239; 8287;
   12288].

Definition isspace (c : char) : bool := existsb (N.eqb c) whitespace_points.

(** The code points of the digit zero of every script; the digits one to nine
    of the script follow it. These are the characters of category Nd. *)
Definition decimal_zeros : list N :=
  [48; 1632; 1776; 1984; 2406; 2534; 2662; 2790; 2918; 3046; 3174; 3302; 3430;
   3558; 3664; 3792; 3872; 4160; 4240; 6112; 6160; 6470; 6608; 6784; 6800;
   6992; 7088; 7232; 7248; 42528; 43216; 43264; 43472; 43504; 43600; 44016;
   65296; 66720; 68912; 69734; 69872; 69942; 70096; 70384; 70736; 70864;
   71248; 71360; 71472; 71904; 72016; 72784; 73040; 73120; 92768; 92864;
   93008; 120782; 120792; 120802; 120812; 120822; 123200; 123632; 125264;
   130032].

(** [unicodedata.decimal]: the value of a decimal digit, [None] otherwise. *)
Definition decimal (c : char) : option N :=
  match find (fun z => (z <=? c) && (c <? z + 10)) decimal_zeros with
  | Some z => Some (c - z)
  | None => None
  end.

(** What the regular expression [\d] matches in a [str] pattern. *)
Definition isdecimal (c : char) : bool :=
  match decimal c with Some _ => true | None => false end.

(** ** Exceptions *)

Inductive exn : Type :=
| AttributeError      (* attribute access on None *)
| TypeError           (* subscript of None *)
| ValueError          (* float(), int(), urlsplit() *)
| RequestException.   (* requests.get / raise_for_status *)

Inductive result (A : Type) : Type :=
| Ok (a : A)
| Raise (e : exn).
Arguments Ok {A} a.
Arguments Raise {A} e.

Definition bind {A B} (r : result A) (k : A -> result B) : result B :=
  match r with
  | Ok a => k a
  | Raise e => Raise e
  end.

Declare Scope result_scope.
Delimit Scope result_scope with result.
Notation "'do' x <- r ; k" := (bind r (fun x => k))
  (at level 10, x name, r at level 100, k at level 200) : result_scope.

(** ** Field parsers *)

Definition dot : char := 46.

(** [re.sub(r"[^\d.]", "", text)]: delete what is neither a digit nor a dot. *)
Definition sub_non_numeric (t : text) : text :=
  filter (fun c => isdecimal c || (c =? dot)) t.

(** The number a run of decimal digits denotes (zero for the empty run). *)
Definition digits_value (ds : text) : N :=
  fold_left (fun acc c => 10 * acc + match decimal c with
                                     | Some d => d
                                     | None => 0
                                     end) ds 0.

Definition pow10 (k : nat) : positive := Nat.iter k (Pos.mul 10) 1%positive.

(** The rational that the integer part [ip] and the fraction part [fp]
    denote. *)
Definition numeral_value (ip fp : text) : Q :=
  Qmake (Z.of_N (digits_value (ip ++ fp))) (pow10 (List.length fp)).

(** A Python [float]: an IEEE 754 binary64 number, with 53 bits of precision
    and the exponent 1024 for the infinities. *)
Definition binary64 : Type := spec_float.
Definition binary64_prec : Z := 53.
Definition binary64_emax : Z := 1024.

(** The binary64 number nearest to a rational, ties to the even mantissa:
    the quotient of numerator and denominator is taken to enough bits, with
    the place of the remainder, and rounded as IEEE 754 division rounds.  A
    rational beyond the largest finite number gives an infinity, one below
    half the smallest gives zero. *)
Definition nearest_binary64 (q : Q) : binary64 :=
  let round (sign : bool) (m : positive) :=
    let '(mz, ez, lz) :=
      SFdiv_core_binary binary64_prec binary64_emax
                        (Zpos m) 0 (Zpos (Qden q)) 0 in
    binary_round_aux binary64_prec binary64_emax sign mz ez lz in
  match Qnum q with
  | Z0 => S754_zero false
  | Zpos m => round false m
  | Zneg m => round true m
  end.

(** [float(s)] on the strings [parse_price] gives it, which hold only decimal
    digits and dots ([sub_non_numeric_chars]): digits, at most one dot, digits,
    with a digit somewhere; anything else is a ValueError.  The result is the
    binary64 number nearest to the value of the numeral.  Signs, exponents,
    underscores, blanks, [inf] and [nan], which float() also reads, cannot
    reach it from [parse_price] and are not modelled. *)
Definition float (s : text) : result binary64 :=
  let ip := take_while isdecimal s in
  match drop_while isdecimal s with
  | [] => if is_empty ip then Raise ValueError
          else Ok (nearest_binary64 (numeral_value ip []))
  | c :: rest =>
      if c =? dot then
        let fp := take_while isdecimal rest in
        match drop_while isdecimal rest with
        | [] => if is_empty ip && is_empty fp then Raise ValueError
                else Ok (nearest_binary64 (numeral_value ip fp))
        | _ :: _ => Raise ValueError
        end
      else Raise ValueError
  end.

Definition parse_price (t : text) : result binary64 :=
  float (sub_non_numeric t).

Definition mapping : list (text * N) :=
  [(str "One", 1); (str "Two", 2); (str "Three", 3); (str "Four", 4);
   (str "Five", 5)].

Fixpoint mapping_get (m : list (text * N)) (c : text) : option N :=
  match m with
  | [] => None
  | (k, v) :: m' => if eqb_text c k then Some v else mapping_get m' c
  end.

(** [None] is [pd.NA]. *)
Fixpoint parse_rating (classes : list text) : option N :=
  match classes with
  | [] => None
  | c :: classes' =>
      match mapping_get mapping c with
      | Some r => Some r
      | None => parse_rating classes'
      end
  end.

(** [sys.get_int_max_str_digits()]: since CPython 3.11 int() refuses a string
    of more digits than this (4300 unless reconfigured). *)
Definition int_max_str_digits : nat := 4300.

(** [int(ds)] on a non-empty run of decimal digits. *)
Definition int (ds : text) : result N :=
  if (int_max_str_digits <? List.length ds)%nat then Raise ValueError
  else Ok (digits_value ds).

(** [re.search(r"(\d+)", text)]: the first maximal run of digits, if any. *)
Definition search_digits (t : text) : option text :=
  match drop_while (fun c => negb (isdecimal c)) t with
  | [] => None
  | rest => Some (take_while isdecimal rest)
  end.

Definition parse_availability (t : text) : result (option N) :=
  match search_digits t with
  | Some m => bind (int m) (fun n => Ok (Some n))
  | None => Ok None
  end.

(** ** urllib.parse

    [urljoin] and what it calls, after Lib/urllib/parse.py of CPython 3.11.
    Two library services it consults on unusual network locations are taken
    from the runtime: NFKC normalisation and the parser of IP addresses. *)

Inductive ip_version : Type := IPv4 | IPv6.

Class Runtime : Type := {
  (** [unicodedata.normalize('NFKC', s)] *)
  normalize_NFKC : text -> text;
  (** [ipaddress.ip_address(s)], [None] when it raises ValueError *)
  ip_address : text -> option ip_version
}.

Definition slash : char := 47.
Definition colon : char := 58.
Definition semicolon : char := 59.
Definition question : char := 63.
Definition hash : char := 35.
Definition at_sign : char := 64.

Definition uses_relative : list text :=
  map str ["ftp"; "http"; "gopher"; "nntp"; "imap"; "wais"; "file"; "https";
           "shttp"; "mms"; "prospero"; "rtsp"; "rtspu"; "sftp"; "svn";
           "svn+ssh"; "ws"; "wss"]%string ++ [[]].

Definition uses_netloc : list text :=
  map str ["ftp"; "http"; "gopher"; "nntp"; "telnet"; "imap"; "wais"; "file";
           "mms"; "https"; "shttp"; "snews"; "prospero"; "rtsp"; "rtspu";
           "rsync"; "svn"; "svn+ssh"; "sftp"; "nfs"; "git"; "git+ssh"; "ws";
           "wss"]%string ++ [[]].

Definition uses_params : list text :=
  map str ["ftp"; "hdl"; "prospero"; "http"; "imap"; "https"; "shttp"; "rtsp";
           "rtspu"; "sip"; "sips"; "mms"; "sftp"; "tel"]%string ++ [[]].

(** [s in l] for a list of strings. *)
Definition mem (s : text) (l : list text) : bool := existsb (eqb_text s) l.

Definition ascii_upper (c : char) : bool := (65 <=? c) && (c <=? 90).
Definition ascii_lower (c : char) : bool := (97 <=? c) && (c <=? 122).
Definition ascii_digit (c : char) : bool := (48 <=? c) && (c <=? 57).

(** [c in scheme_chars] *)
Definition scheme_char (c : char) : bool :=
  ascii_lower c || ascii_upper c || ascii_digit c
  || (c =? 43) || (c =? 45) || (c =? 46).

(** [s.lower()] on a string of scheme characters. *)
Definition lower (s : text) : text :=
  map (fun c => if ascii_upper c then c + 32 else c) s.

(** [c in _WHATWG_C0_CONTROL_OR_SPACE] *)
Definition c0_control_or_space (c : char) : bool := c <=? 32.

(** The loop over [_UNSAFE_URL_BYTES_TO_REMOVE]: tab, CR, LF. *)
Definition remove_unsafe (s : text) : text :=
  remove_char 10 (remove_char 13 (remove_char 9 s)).

Definition starts_with (c : char) (s : text) : bool :=
  match s with d :: _ => d =? c | [] => false end.

(** [s.partition(c)]: before and after the first [c]; the second is empty
    when there is none. *)
Definition partition (c : char) (s : text) : text * text :=
  match find_char c s with
  | Some i => (firstn i s, skipn (S i) s)
  | None => (s, [])
  end.

(** [s.rpartition(c)[2]] *)
Definition after_last (c : char) (s : text) : text :=
  match rfind_char c s with
  | Some i => skipn (S i) s
  | None => s
  end.

Definition splitparams (url : text) : text * text :=
  match rfind_char slash url with
  | Some r =>
      match find_char_from semicolon r url with
      | Some i => (firstn i url, skipn (S i) url)
      | None => (url, [])
      end
  | None =>
      (* only called when there is a semicolon *)
      match find_char semicolon url with
      | Some i => (firstn i url, skipn (S i) url)
      | None => (url, [])
      end
  end.

Definition splitnetloc (url : text) (start : nat) : text * text :=
  let delim :=
    fold_left (fun delim c => match find_char_from c start url with
                              | Some wdelim => Nat.min delim wdelim
                              | None => delim
                              end)
              [slash; question; hash] (List.length url) in
  (firstn (delim - start) (skipn start url), skipn delim url).

Definition hex_digit (c : char) : bool :=
  ascii_digit c || ((97 <=? c) && (c <=? 102)) || ((65 <=? c) && (c <=? 70)).

(** [re.match(r"\Av[a-fA-F0-9]+\..+\Z", hostname)] for a [hostname] that
    starts with v. *)
Definition ipvfuture (hostname : text) : bool :=
  match hostname with
  | _ :: rest =>
      negb (is_empty (take_while hex_digit rest)) &&
      match drop_while hex_digit rest with
      | c :: tail =>
          (c =? dot) && negb (is_empty tail)
          && forallb (fun d => negb (d =? 10)) tail
      | [] => false
      end
  | [] => false
  end.

Section Urllib.
Context {runtime : Runtime}.

Definition check_bracketed_host (hostname : text) : result unit :=
  if starts_with 118 hostname then
    if ipvfuture hostname then Ok tt else Raise ValueError
  else
    match ip_address hostname with
    | Some IPv6 => Ok tt
    | Some IPv4 => Raise ValueError
    | None => Raise ValueError
    end.

Definition check_bracketed_netloc (netloc : text) : result unit :=
  let hostname_and_port := after_last at_sign netloc in
  match find_char 91 hostname_and_port with
  | Some i =>
      let before_bracket := firstn i hostname_and_port in
      let bracketed := skipn (S i) hostname_and_port in
      if negb (is_empty before_bracket) then Raise ValueError
      else
        let (hostname, port) := partition 93 bracketed in
        if negb (is_empty port) && negb (starts_with colon port)
        then Raise ValueError
        else check_bracketed_host hostname
  | None => check_bracketed_host (fst (partition colon hostname_and_port))
  end.

Definition checknetloc (netloc : text) : result unit :=
  if is_empty netloc || forallb (fun c => c <? 128) netloc then Ok tt
  else
    let n := remove_char question
               (remove_char hash (remove_char colon
                  (remove_char at_sign netloc))) in
    let netloc2 := normalize_NFKC n in
    if eqb_text n netloc2 then Ok tt
    else if existsb (fun c => contains c netloc2)
                    [slash; question; hash; at_sign; colon]
         then Raise ValueError
         else Ok tt.

Record SplitResult : Type := mkSplit {
  s_scheme : text; s_netloc : text; s_path : text;
  s_query : text; s_fragment : text
}.

(** [urlsplit(url, scheme)] with [allow_fragments] true. *)
Definition urlsplit (url scheme : text) : result SplitResult :=
  let url := drop_while c0_control_or_space url in
  let scheme :=
    rev (drop_while c0_control_or_space
           (rev (drop_while c0_control_or_space scheme))) in
  let url := remove_unsafe url in
  let scheme := remove_unsafe scheme in
  let '(scheme, url) :=
    match find_char colon url, url with
    | Some (S i), c :: _ =>
        if (ascii_lower c || ascii_upper c)
           && forallb scheme_char (firstn (S i) url)
        then (lower (firstn (S i) url), skipn (S (S i)) url)
        else (scheme, url)
    | _, _ => (scheme, url)
    end in
  (do nu <-
     match url with
     | 47 :: 47 :: _ =>
         let (netloc, rest) := splitnetloc url 2 in
         if (contains 91 netloc && negb (contains 93 netloc))
            || (contains 93 netloc && negb (contains 91 netloc))
         then Raise ValueError
         else if contains 91 netloc && contains 93 netloc
              then do _ <- check_bracketed_netloc netloc; Ok (netloc, rest)
              else Ok (netloc, rest)
     | _ => Ok ([], url)
     end;
   let (netloc, url) := nu : text * text in
   let (url, fragment) := partition hash url in
   let (url, query) := partition question url in
   do _ <- checknetloc netloc;
   Ok (mkSplit scheme netloc url query fragment))%result.

Record ParseResult : Type := mkParse {
  scheme : text; netloc : text; path : text; params : text;
  query : text; fragment : text
}.

Definition urlparse (url scheme0 : text) : result ParseResult :=
  (do sr <- urlsplit url scheme0;
   let (url, params) :=
     if mem (s_scheme sr) uses_params && contains semicolon (s_path sr)
     then splitparams (s_path sr)
     else (s_path sr, []) in
   Ok (mkParse (s_scheme sr) (s_netloc sr) url params
               (s_query sr) (s_fragment sr)))%result.

Definition urlunsplit (scheme netloc url query fragment : text) : text :=
  let url :=
    if negb (is_empty netloc)
       || (negb (is_empty scheme) && mem scheme uses_netloc
           && negb (match url with 47 :: 47 :: _ => true | _ => false end))
    then
      let url := if negb (is_empty url) && negb (starts_with slash url)
                 then slash :: url else url in
      slash :: slash :: netloc ++ url
    else url in
  let url := if negb (is_empty scheme) then scheme ++ colon :: url else url in
  let url := if negb (is_empty query) then url ++ question :: query else url in
  if negb (is_empty fragment) then url ++ hash :: fragment else url.

Definition urlunparse (p : ParseResult) : text :=
  let url := if negb (is_empty (params p))
             then path p ++ semicolon :: params p else path p in
  urlunsplit (scheme p) (netloc p) url (query p) (fragment p).

Definition dot_segment : text := [dot].
Definition dotdot_segment : text := [dot; dot].

(** [segments[1:-1] = filter(None, segments[1:-1])] *)
Definition filter_inner (segments : list text) : list text :=
  match segments with
  | [] => []
  | [only] => [only]
  | first :: rest =>
      first :: filter (fun seg => negb (is_empty seg)) (removelast rest)
        ++ [last rest []]
  end.

(** The loop over [segments] that builds [resolved_path]. *)
Definition resolve_segments (segments : list text) : list text :=
  fold_left (fun resolved_path seg =>
               if eqb_text seg dotdot_segment then removelast resolved_path
               else if eqb_text seg dot_segment then resolved_path
               else resolved_path ++ [seg])
            segments [].

Definition urljoin (base url : text) : result text :=
  if is_empty base then Ok url
  else if is_empty url then Ok base
  else
    (do b <- urlparse base [];
     do u <- urlparse url (scheme b);
     if negb (eqb_text (scheme u) (scheme b))
        || negb (mem (scheme u) uses_relative)
     then Ok url
     else if mem (scheme u) uses_netloc && negb (is_empty (netloc u))
     then Ok (urlunparse u)
     else
       let netloc' := if mem (scheme u) uses_netloc
                      then netloc b else netloc u in
       if is_empty (path u) && is_empty (params u) then
         let query' := if is_empty (query u) then query b else query u in
         Ok (urlunparse (mkParse (scheme u) netloc' (path b) (params b)
                                 query' (fragment u)))
       else
         let base_parts := split_on slash (path b) in
         let base_parts :=
           if negb (is_empty (last base_parts []))
           then removelast base_parts else base_parts in
         let segments :=
           if starts_with slash (path u) then split_on slash (path u)
           else filter_inner (base_parts ++ split_on slash (path u)) in
         let resolved_path := resolve_segments segments in
         let resolved_path :=
           if mem (last segments []) [dot_segment; dotdot_segment]
           then resolved_path ++ [[]] else resolved_path in
         let joined := join slash resolved_path in
         Ok (urlunparse
               (mkParse (scheme u) netloc'
                        (if is_empty joined then [slash] else joined)
                        (params u) (query u) (fragment u))))%result.

End Urllib.

(** ** Documents

    What the script reads off a parsed page, selector by selector.  A page is
    one [BeautifulSoup]; whether it serves as a list page or as a detail page
    is decided by who fetched it, so a document carries the answers to the
    selectors of both roles. *)

(** A tag as far as [Tag.get] sees it: its attributes. *)
Record Tag : Type := mkTag { attrs : list (text * text) }.

(** [tag.get(key, default)] *)
Fixpoint attrs_get (l : list (text * text)) (key default : text) : text :=
  match l with
  | [] => default
  | (k, v) :: l' => if eqb_text k key then v else attrs_get l' key default
  end.

Definition get (t : Tag) (key default : text) : text :=
  attrs_get (attrs t) key default.

(** An [h3] element: [.a] is its first anchor, if it has one. *)
Record Heading : Type := mkHeading { a : option Tag }.

(** One [article.product_pod]. *)
Record product_pod : Type := mkPod {
  (** [art.h3] *)
  h3 : option Heading;
  (** [art.select_one("p.price_color")], as its [get_text(strip=True)] *)
  price_color : option text;
  (** [art.select_one("p.star-rating")], as its ["class"] list *)
  star_rating : option (list text);
  (** [art.select_one("p.instock.availability")], as its
      [get_text(" ", strip=True)] *)
  instock_availability : option text
}.

Record BeautifulSoup : Type := mkSoup {
  (** [soup.select("article.product_pod")], in document order *)
  product_pods : list product_pod;
  (** [soup.select_one("li.next a")] *)
  next_a : option Tag;
  (** [d.select_one("table.table.table-striped tr:nth-of-type(1) td")], as its
      [get_text(strip=True)] *)
  upc_cell : option text;
  (** the [get_text(strip=True)] of every element of
      [d.select("ul.breadcrumb li a, ul.breadcrumb li.active")] *)
  breadcrumb : list text
}.

(** One row of the DataFrame. *)
Record row : Type := mkRow {
  Title : text;
  Price : binary64;
  Rating : option N;
  Availability : option N;
  DetailURL : text;
  UPC : text;
  Category : text
}.

(** The local variables of the loop body before the detail page is fetched. *)
Record partial_row : Type := mkPartial {
  p_title : text;
  p_price : binary64;
  p_rating : option N;
  p_availability : option N;
  p_detail_url : text
}.

(** [s.strip()] *)
Definition strip (s : text) : text :=
  rev (drop_while isspace (rev (drop_while isspace s))).

(** [x.attr] where [x] may be None. *)
Definition attribute_of {A} (x : option A) : result A :=
  match x with Some v => Ok v | None => Raise AttributeError end.

(** [x[key]] where [x] may be None. *)
Definition subscript_of {A} (x : option A) : result A :=
  match x with Some v => Ok v | None => Raise TypeError end.

(** Lines 101-102. *)
Definition upc_of (d : BeautifulSoup) : text :=
  match upc_cell d with Some t => t | None => [] end.

(** Lines 105-106. *)
Definition category_of (d : BeautifulSoup) : text :=
  let crumbs := breadcrumb d in
  if (3 <=? List.length crumbs)%nat then nth 2 crumbs [] else str "Books".

(** ** The crawl

    A computation that may fetch pages: it extends the log of requested URLs
    and returns a value or raises. *)

Definition crawl (A : Type) : Type := list text -> list text * result A.

Definition ret {A} (x : A) : crawl A := fun log => (log, Ok x).

Definition lift {A} (r : result A) : crawl A := fun log => (log, r).

Definition bind_crawl {A B} (m : crawl A) (k : A -> crawl B) : crawl B :=
  fun log => match m log with
             | (log', Ok x) => k x log'
             | (log', Raise e) => (log', Raise e)
             end.

Declare Scope crawl_scope.
Delimit Scope crawl_scope with crawl.
Notation "x <- m ;; k" := (bind_crawl m (fun x => k))
  (at level 61, m at next level, right associativity) : crawl_scope.

Section Crawl.
Context {runtime : Runtime}.

(** The network: the document behind a URL, [None] where [requests.get] or
    [raise_for_status] raise. *)
Variable fetch : text -> option BeautifulSoup.

Definition get_soup (url : text) : crawl BeautifulSoup :=
  fun log => (log ++ [url],
              match fetch url with
              | Some soup => Ok soup
              | None => Raise RequestException
              end).

(** Lines 88-95: what the card itself gives. *)
Definition card_fields (url : text) (art : product_pod) : result partial_row :=
  (do heading <- attribute_of (h3 art);
   do anchor <- attribute_of (a heading);
   let title := strip (get anchor (str "title") []) in
   let rel_detail := get anchor (str "href") [] in
   do detail_url <- urljoin url rel_detail;
   do price_text <- attribute_of (price_color art);
   do price <- parse_price price_text;
   do classes <- subscript_of (star_rating art);
   let rating := parse_rating classes in
   do availability_text <- attribute_of (instock_availability art);
   do availability <- parse_availability availability_text;
   Ok (mkPartial title price rating availability detail_url))%result.

(** Lines 101-116: the row, once the detail page [d] is there. *)
Definition complete (p : partial_row) (d : BeautifulSoup) : row :=
  mkRow (p_title p) (p_price p) (p_rating p) (p_availability p)
        (p_detail_url p) (upc_of d) (category_of d).

(** The body of the [for] loop, lines 88-116: the row of one card. *)
Definition scrape_card (url : text) (art : product_pod) : crawl row :=
  (p <- lift (card_fields url art) ;;
   d <- get_soup (p_detail_url p) ;;
   ret (complete p d))%crawl.

(** The [for] loop over the cards of one list page. *)
Fixpoint scrape_cards (url : text) (arts : list product_pod)
                      (rows : list row) : crawl (list row) :=
  match arts with
  | [] => ret rows
  | art :: arts' =>
      (r <- scrape_card url art ;;
       scrape_cards url arts' (rows ++ [r]))%crawl
  end.

(** The [while True] loop, cut after [fuel] list pages: [None] when the loop
    is still running then. *)
Fixpoint scrape_loop (fuel : nat) (url : text) (rows : list row)
                     (log : list text)
  : list text * option (result (list row)) :=
  match fuel with
  | O => (log, None)
  | S fuel' =>
      match get_soup url log with
      | (log1, Raise e) => (log1, Some (Raise e))
      | (log1, Ok soup) =>
          match scrape_cards url (product_pods soup) rows log1 with
          | (log2, Raise e) => (log2, Some (Raise e))
          | (log2, Ok rows') =>
              match next_a soup with
              | None => (log2, Some (Ok rows'))
              | Some next =>
                  match urljoin url (get next (str "href") []) with
                  | Raise e => (log2, Some (Raise e))
                  | Ok url' => scrape_loop fuel' url' rows' log2
                  end
              end
          end
      end
  end.

Definition scrape_books (fuel : nat) (start_url : text)
  : list text * option (result (list row)) :=
  scrape_loop fuel start_url [] [].

End Crawl.

(** ** What the specification calls things *)

(** The error kinds of the specification that a Python exception of the crawl
    falls under. *)
Inductive error_kind : Type :=
| FetchError | ParseOrResolutionError | MalformedItemError.

Definition kind_of (e : exn) : error_kind :=
  match e with
  | RequestException => FetchError
  | ValueError => ParseOrResolutionError
  | AttributeError | TypeError => MalformedItemError
  end.

(** A decimal numeral as float() reads one, with the number it denotes: an
    integer part and, after an optional dot, a fraction part, both runs of
    decimal digits and not both empty; the number is the one the digits of
    both parts denote together, over ten to the number of fraction digits. *)
Definition all_digits (s : text) : Prop :=
  Forall (fun c => isdecimal c = true) s.

Inductive decimal_numeral : text -> Q -> Prop :=
| numeral_integer ip :
    all_digits ip -> ip <> [] ->
    decimal_numeral ip (Qmake (Z.of_N (digits_value ip)) 1)
| numeral_fraction ip fp :
    all_digits ip -> all_digits fp -> ip ++ fp <> [] ->
    decimal_numeral (ip ++ dot :: fp)
      (Qmake (Z.of_N (digits_value (ip ++ fp))) (pow10 (List.length fp))).

(** The rational a binary64 number is, when it is one. *)
Definition exact_value (f : binary64) : option Q :=
  match f with
  | S754_zero _ => Some 0%Q
  | S754_finite s m e =>
      Some ((if s then Qmake (Zneg m) 1 else Qmake (Zpos m) 1)
            * Qpower (Qmake 2 1) e)%Q
  | S754_infinity _ | S754_nan => None
  end.

(** [0.0 <= f] *)
Definition nonnegative (f : binary64) : Prop :=
  SFleb (S754_zero false) f = true.

(** Pagination from [url] ends after [n] next links: the [n]-th page reached
    by resolving next links has none. *)
Inductive last_page_after `{Runtime} (fetch : text -> option BeautifulSoup)
  : nat -> text -> Prop :=
| last_here url soup :
    fetch url = Some soup -> next_a soup = None ->
    last_page_after fetch O url
| last_later n url soup next url' :
    fetch url = Some soup -> next_a soup = Some next ->
    urljoin url (get next (str "href") []) = Ok url' ->
    last_page_after fetch n url' ->
    last_page_after fetch (S n) url.

(** How often [url] was requested. *)
Definition requests_of (url : text) (log : list text) : nat :=
  List.length (filter (eqb_text url) log).

(** A string that does not start with a character satisfying [p]. *)
Definition head_free (p : char -> bool) (s : text) : Prop :=
  match s with [] => True | c :: _ => p c = false end.

(** [r] is the row that lines 88-116 build from the card [art] of the list
    page at [url]: the card gives its fields and its detail page is there. *)
Definition card_row `{Runtime} (fetch : text -> option BeautifulSoup)
    (url : text) (art : product_pod) (r : row) : Prop :=
  exists p d,
    card_fields url art = Ok p /\ fetch (p_detail_url p) = Some d /\
    r = complete p d.

(** [r] is the row of some card of some list page of the site. *)
Definition produced `{Runtime} (fetch : text -> option BeautifulSoup)
    (r : row) : Prop :=
  exists url soup art,
    fetch url = Some soup /\ In art (product_pods soup) /\
    card_row fetch url art r.

(** ** A small site

    Two list pages in the layout of books.toscrape.com, with one book each, and
    their detail pages. *)
Module Fixture.

(** The examples run on network locations that are plain ASCII without
    brackets: neither service of the runtime is consulted. *)
Definition plain_runtime : Runtime :=
  {| normalize_NFKC := fun s => s; ip_address := fun _ => None |}.

Definition site := list (text * BeautifulSoup).

Fixpoint serve (pages : site) (url : text) : option BeautifulSoup :=
  match pages with
  | [] => None
  | (u, soup) :: pages' =>
      if eqb_text url u then Some soup else serve pages' url
  end.

Definition pound : char := 163.

Definition root_url := str "http://example.com/".
Definition page2_url := str "http://example.com/catalogue/page-2.html".
Definition attic_url :=
  str "http://example.com/catalogue/a-light-in-the-attic_1000/index.html".
Definition wake_url :=
  str "http://example.com/catalogue/in-her-wake_980/index.html".

Definition attic_pod : product_pod :=
  mkPod (Some (mkHeading (Some (mkTag
           [(str "href", str "catalogue/a-light-in-the-attic_1000/index.html");
            (str "title", str "A Light in the Attic")]))))
        (Some (pound :: str "51.77"))
        (Some [str "star-rating"; str "Three"])
        (Some (str "In stock")).

(** A card whose anchor has no title attribute. *)
Definition wake_pod : product_pod :=
  mkPod (Some (mkHeading (Some (mkTag
           [(str "href", str "in-her-wake_980/index.html")]))))
        (Some (pound :: str "12.84"))
        (Some [str "star-rating"; str "One"])
        (Some (str "In stock (22 available)")).

Definition root_page : BeautifulSoup :=
  mkSoup [attic_pod]
         (Some (mkTag [(str "href", str "catalogue/page-2.html")]))
         None [].

Definition page2 : BeautifulSoup := mkSoup [wake_pod] None None [].

Definition attic_page : BeautifulSoup :=
  mkSoup [] None (Some (str "a897fe39b1053632"))
         [str "Home"; str "Books"; str "Poetry"; str "A Light in the Attic"].

(** A detail page without the table of product attributes and with a short
    breadcrumb. *)
Definition wake_page : BeautifulSoup :=
  mkSoup [] None None [str "Home"; str "Books"].

Definition books : site :=
  [(root_url, root_page); (page2_url, page2);
   (attic_url, attic_page); (wake_url, wake_page)].

Definition attic_row : row :=
  mkRow (str "A Light in the Attic") (nearest_binary64 51.77) (Some 3) None attic_url
        (str "a897fe39b1053632") (str "Poetry").

Definition wake_row : row :=
  mkRow [] (nearest_binary64 12.84) (Some 1) (Some 22) wake_url [] (str "Books").

(** A card without a price node, after a sound one. *)
Definition unpriced_pod : product_pod :=
  mkPod (Some (mkHeading (Some (mkTag
           [(str "href", str "catalogue/in-her-wake_980/index.html")]))))
        None
        (Some [str "star-rating"; str "One"])
        (Some (str "In stock")).

Definition unpriced : site :=
  [(root_url, mkSoup [attic_pod; unpriced_pod] None None []);
   (attic_url, attic_page); (wake_url, wake_page)].

(** A list page whose next link has an empty [href]. *)
Definition looping : site :=
  [(root_url, mkSoup [] (Some (mkTag [(str "href", [])])) None [])].



End Fixture.

(** [u] is what lines 88-90 make of the link of the card [art] found on the
    page at [url]: the [href] of the anchor of its heading, resolved against
    [url]. *)
Definition link_resolved `{Runtime} (url : text) (art : product_pod)
    (u : text) : Prop :=
  exists heading anchor,
    h3 art = Some heading /\ a heading = Some anchor /\
    urljoin url (get anchor (str "href") []) = Ok u.

(** [rows] and [log] are the rows and the requests of a walk from the list
    page at [url] to a list page without next link: page after page, each
    page reached by resolving the next link of the one before against the URL
    of that one; on every page one row per card, in document order, each row
    standing in [P] with the URL of its page and with its card; and as
    requests the list page, then the detail URLs of its rows. *)
Inductive walked `{Runtime} (fetch : text -> option BeautifulSoup)
    (P : text -> product_pod -> row -> Prop)
  : text -> list row -> list text -> Prop :=
| walked_last url soup new :
    fetch url = Some soup -> next_a soup = None ->
    Forall2 (P url) (product_pods soup) new ->
    walked fetch P url new (url :: map DetailURL new)
| walked_next url soup next url' new rest log :
    fetch url = Some soup -> next_a soup = Some next ->
    urljoin url (get next (str "href") []) = Ok url' ->
    Forall2 (P url) (product_pods soup) new ->
    walked fetch P url' rest log ->
    walked fetch P url (new ++ rest) (url :: map DetailURL new ++ log).

(** ** Vocabulary of the further properties *)

(** How many characters of [t] satisfy [p]. *)
Definition count (p : char -> bool) (t : text) : nat :=
  List.length (filter p t).

Definition result_map {A B} (f : A -> B) (r : result A) : result B :=
  match r with
  | Ok x => Ok (f x)
  | Raise e => Raise e
  end.

Definition isdot (c : char) : bool := c =? dot.

(** A run as it shows from a walk that already holds [rows] and has already
    requested [log]. *)
Definition resumed (rows : list row) (log : list text)
    (run : list text * option (result (list row)))
  : list text * option (result (list row)) :=
  (log ++ fst run, option_map (result_map (app rows)) (snd run)).

(** The requests [ext] of a run that ended in [x] stop at the first page that
    is not served: all were served, unless the run raised RequestException,
    and then all but the last were. *)
Definition stops_at_failure {A} (fetch : text -> option BeautifulSoup)
    (ext : list text) (x : option (result A)) : Prop :=
  match x with
  | Some (Raise RequestException) =>
      exists pre u, ext = pre ++ [u]
                    /\ Forall (fun v => fetch v <> None) pre
                    /\ fetch u = None
  | _ => Forall (fun v => fetch v <> None) ext
  end.

(** The list page at [url] is served, its cards have their rows and its next
    link resolves to [url']: the loop turns from [url] to [url']. *)
Definition page_turns `{Runtime} (fetch : text -> option BeautifulSoup)
    (url url' : text) : Prop :=
  exists soup next new,
    fetch url = Some soup /\
    Forall2 (card_row fetch url) (product_pods soup) new /\
    next_a soup = Some next /\
    urljoin url (get next (str "href") []) = Ok url'.

(** Two list pages whose next links point at each other. *)
Module Carousel.

Definition first_url := str "http://example.com/catalogue/page-1.html".
Definition second_url := str "http://example.com/catalogue/page-2.html".

Definition pages : Fixture.site :=
  [(first_url, mkSoup [] (Some (mkTag [(str "href", str "page-2.html")]))
                      None []);
   (second_url, mkSoup [] (Some (mkTag [(str "href", str "page-1.html")]))
                       None [])].

(** The fixture site with the detail page of its second book gone. *)
Definition broken : Fixture.site :=
  [(Fixture.root_url, Fixture.root_page);
   (Fixture.page2_url, Fixture.page2);
   (Fixture.attic_url, Fixture.attic_page)].

(** The fixture site with other pages beside it. *)
Definition enlarged : Fixture.site :=
  Fixture.books ++ [(first_url, Fixture.attic_page)].

End Carousel.

(** * Properties *)

(** ** Text *)

Lemma eqb_text_eq (s t : text) : eqb_text s t = true <-> s = t.
Proof.
  revert t; induction s as [|c s IH]; intros [|d t]; simpl; split;
    try congruence; auto.
  - rewrite andb_true_iff, N.eqb_eq, IH. intros [-> ->]; reflexivity.
  - intros E; injection E as -> ->.
    rewrite N.eqb_refl; simpl. apply IH; reflexivity.
Qed.

Lemma eqb_text_refl (s : text) : eqb_text s s = true.
Proof. apply eqb_text_eq; reflexivity. Qed.

Lemma eqb_text_neq (s t : text) : eqb_text s t = false <-> s <> t.
Proof.
  rewrite <- eqb_text_eq. destruct (eqb_text s t); split; congruence.
Qed.

Lemma is_empty_nil (s : text) : is_empty s = true <-> s = [].
Proof. destruct s; simpl; split; congruence. Qed.

Lemma take_drop_while (p : char -> bool) (s : text) :
  take_while p s ++ drop_while p s = s.
Proof.
  induction s as [|c s IH]; simpl; [reflexivity|].
  destruct (p c); simpl; [rewrite IH|]; reflexivity.
Qed.

Lemma take_while_all (p : char -> bool) (s : text) :
  Forall (fun c => p c = true) (take_while p s).
Proof.
  induction s as [|c s IH]; simpl; [constructor|].
  destruct (p c) eqn:E; constructor; assumption.
Qed.

Lemma while_all (p : char -> bool) (s : text) :
  Forall (fun c => p c = true) s ->
  take_while p s = s /\ drop_while p s = [].
Proof.
  induction 1 as [|c s Hc _ [IH1 IH2]]; simpl; [split; reflexivity|].
  rewrite Hc, IH1, IH2; split; reflexivity.
Qed.

Lemma while_stop (p : char -> bool) (s : text) (c : char) (r : text) :
  Forall (fun c => p c = true) s -> p c = false ->
  take_while p (s ++ c :: r) = s /\ drop_while p (s ++ c :: r) = c :: r.
Proof.
  intros Hs Hc. induction Hs as [|d s Hd _ [IH1 IH2]]; simpl.
  - rewrite Hc; split; reflexivity.
  - rewrite Hd, IH1, IH2; split; reflexivity.
Qed.

Lemma drop_while_head (p : char -> bool) (s : text) :
  head_free p (drop_while p s).
Proof.
  induction s as [|c s IH]; simpl; [exact I|].
  destruct (p c) eqn:E; [exact IH | exact E].
Qed.

Lemma drop_while_id (p : char -> bool) (s : text) :
  head_free p s -> drop_while p s = s.
Proof. destruct s as [|c s]; simpl; [reflexivity|]. intros ->; reflexivity. Qed.

Lemma drop_while_suffix (p : char -> bool) (s : text) :
  exists t, s = t ++ drop_while p s.
Proof. exists (take_while p s). symmetry; apply take_drop_while. Qed.

Lemma strip_head_free (s : text) :
  head_free isspace (strip s) /\ head_free isspace (rev (strip s)).
Proof.
  unfold strip.
  pose proof (drop_while_head isspace s) as Hl.
  set (l := drop_while isspace s) in *.
  pose proof (drop_while_head isspace (rev l)) as Hr.
  destruct (drop_while_suffix isspace (rev l)) as [t Ht].
  set (r := drop_while isspace (rev l)) in *.
  split; [|rewrite rev_involutive; exact Hr].
  assert (El : l = rev r ++ rev t).
  { rewrite <- (rev_involutive l), Ht, rev_app_distr; reflexivity. }
  destruct (rev r) as [|c x]; [exact I|].
  rewrite El in Hl; exact Hl.
Qed.

(** [strip] leaves nothing for a second [strip] to remove. *)
Lemma strip_idempotent (s : text) : strip (strip s) = strip s.
Proof.
  destruct (strip_head_free s) as [H1 H2].
  unfold strip at 1.
  rewrite (drop_while_id _ _ H1), (drop_while_id _ _ H2).
  apply rev_involutive.
Qed.

Lemma attrs_get_absent (l : list (text * text)) (key default : text) :
  Forall (fun kv => fst kv <> key) l -> attrs_get l key default = default.
Proof.
  induction 1 as [|[k v] l Hk _ IH]; simpl; [reflexivity|].
  simpl in Hk. apply eqb_text_neq in Hk. rewrite Hk; exact IH.
Qed.

(** ** parse_price *)

Lemma isdecimal_dot : isdecimal dot = false.
Proof. reflexivity. Qed.

(** What [re.sub] leaves holds digits and dots only. *)
Lemma sub_non_numeric_chars (t : text) :
  Forall (fun c => isdecimal c = true \/ c = dot) (sub_non_numeric t).
Proof.
  unfold sub_non_numeric. apply Forall_forall. intros c Hc.
  apply filter_In in Hc as [_ Hc].
  apply orb_true_iff in Hc as [Hc|Hc]; [left; exact Hc|].
  right; apply N.eqb_eq; exact Hc.
Qed.

Lemma pow10_S (k : nat) : pow10 (S k) = (10 * pow10 k)%positive.
Proof. reflexivity. Qed.

Lemma digits_fold (fp : text) (acc : N) :
  fold_left (fun acc c => 10 * acc + match decimal c with
                                     | Some d => d
                                     | None => 0
                                     end) fp acc
  = acc * N.pos (pow10 (List.length fp)) + digits_value fp.
Proof.
  unfold digits_value. revert acc.
  induction fp as [|c fp IH]; intros acc; cbn [List.length fold_left].
  - change (pow10 0) with 1%positive. lia.
  - rewrite (IH (10 * acc + _)), (IH (10 * 0 + _)), pow10_S. lia.
Qed.

Lemma digits_value_app (ip fp : text) :
  digits_value (ip ++ fp)
  = digits_value ip * N.pos (pow10 (List.length fp)) + digits_value fp.
Proof.
  unfold digits_value at 1. rewrite fold_left_app. apply digits_fold.
Qed.

(** The value of a numeral is its integer part plus its fraction. *)
Lemma numeral_value_sum (ip fp : text) :
  (numeral_value ip fp ==
   inject_Z (Z.of_N (digits_value ip))
   + Qmake (Z.of_N (digits_value fp)) (pow10 (List.length fp)))%Q.
Proof.
  unfold numeral_value. rewrite digits_value_app.
  unfold Qeq, Qplus, inject_Z; simpl Qnum; simpl Qden.
  rewrite N2Z.inj_add, N2Z.inj_mul. simpl Z.of_N.
  ring.
Qed.

Lemma numeral_value_integer (ip : text) :
  numeral_value ip [] = inject_Z (Z.of_N (digits_value ip)).
Proof. unfold numeral_value. rewrite app_nil_r. reflexivity. Qed.

Lemma numeral_value_nonneg (ip fp : text) : (0 <= numeral_value ip fp)%Q.
Proof.
  unfold numeral_value, Qle; simpl. rewrite Z.mul_1_r. apply N2Z.is_nonneg.
Qed.

Lemma float_raises (s : text) (e : exn) : float s = Raise e -> e = ValueError.
Proof.
  unfold float.
  destruct (drop_while isdecimal s) as [|c rest].
  - destruct (is_empty _); congruence.
  - destruct (c =? dot); [|congruence].
    destruct (drop_while isdecimal rest); [|congruence].
    destruct (is_empty _ && is_empty _)%bool; congruence.
Qed.

(** float() returns a number exactly on the decimal numerals, and the number
    is the binary64 nearest to the one the numeral denotes. *)
Lemma float_numeral (s : text) (f : binary64) :
  float s = Ok f ->
  exists v, decimal_numeral s v /\ f = nearest_binary64 v.
Proof.
  unfold float.
  pose proof (take_drop_while isdecimal s) as Es.
  pose proof (take_while_all isdecimal s) as Hip.
  set (ip := take_while isdecimal s) in *.
  destruct (drop_while isdecimal s) as [|c rest].
  - rewrite app_nil_r in Es.
    destruct (is_empty ip) eqn:Eip; [congruence|].
    intros E; injection E as <-.
    exists (numeral_value ip []). split; [|reflexivity].
    unfold numeral_value. rewrite app_nil_r.
    rewrite <- Es at 1. constructor; [exact Hip|].
    intros ->; discriminate.
  - destruct (c =? dot) eqn:Ec; [|congruence].
    apply N.eqb_eq in Ec; subst c.
    pose proof (take_drop_while isdecimal rest) as Er.
    pose proof (take_while_all isdecimal rest) as Hfp.
    set (fp := take_while isdecimal rest) in *.
    destruct (drop_while isdecimal rest); [|congruence].
    rewrite app_nil_r in Er.
    destruct (is_empty ip && is_empty fp)%bool eqn:Ee; [congruence|].
    intros E; injection E as <-.
    exists (numeral_value ip fp). split; [|reflexivity].
    rewrite <- Es, <- Er. constructor; [exact Hip | exact Hfp |].
    intros E. apply app_eq_nil in E as [-> ->]. discriminate.
Qed.

Lemma numeral_float (s : text) (v : Q) :
  decimal_numeral s v -> float s = Ok (nearest_binary64 v).
Proof.
  intros [ip Hip Hne | ip fp Hip Hfp Hne]; unfold float.
  - destruct (while_all isdecimal ip Hip) as [-> ->].
    destruct ip; [congruence|]. simpl is_empty.
    unfold numeral_value. rewrite app_nil_r. reflexivity.
  - destruct (while_stop isdecimal ip dot fp Hip isdecimal_dot) as [-> ->].
    rewrite N.eqb_refl.
    destruct (while_all isdecimal fp Hfp) as [-> ->].
    destruct (is_empty ip && is_empty fp)%bool eqn:Ee; [|reflexivity].
    apply andb_true_iff in Ee as [E1 E2].
    apply is_empty_nil in E1, E2. subst. contradiction Hne; reflexivity.
Qed.

(** Rounding keeps what is not negative so. *)
Lemma shr_1_nonneg (mrs : shr_record) :
  (0 <= shr_m mrs)%Z -> (0 <= shr_m (shr_1 mrs))%Z.
Proof.
  destruct mrs as [m r b]. cbn [shr_m].
  destruct m as [|[p|p|]|p]; cbn; lia.
Qed.

Lemma iter_shr_1_nonneg (p : positive) (mrs : shr_record) :
  (0 <= shr_m mrs)%Z -> (0 <= shr_m (iter_pos shr_1 p mrs))%Z.
Proof.
  revert mrs. induction p as [p IH|p IH|]; intros mrs Hm; cbn [iter_pos].
  - apply IH, IH, shr_1_nonneg, Hm.
  - apply IH, IH, Hm.
  - apply shr_1_nonneg, Hm.
Qed.

Lemma shr_fexp_nonneg (m e : Z) (l : location) :
  (0 <= m)%Z ->
  (0 <= shr_m (fst (shr_fexp binary64_prec binary64_emax m e l)))%Z.
Proof.
  intros Hm. unfold shr_fexp, shr.
  assert (H0 : (0 <= shr_m (shr_record_of_loc m l))%Z).
  { destruct l as [|[]]; exact Hm. }
  destruct (_ - e)%Z; cbn [fst]; [exact H0 | | exact H0].
  apply iter_shr_1_nonneg, H0.
Qed.

Lemma binary_round_aux_nonneg (m e : Z) (l : location) :
  (0 <= m)%Z ->
  nonnegative (binary_round_aux binary64_prec binary64_emax false m e l).
Proof.
  intros Hm. unfold binary_round_aux.
  pose proof (shr_fexp_nonneg m e l Hm) as H1.
  destruct (shr_fexp binary64_prec binary64_emax m e l) as [mrs' e'].
  cbn [fst] in H1.
  assert (H2 : (0 <= round_nearest_even (shr_m mrs')
                                        (loc_of_shr_record mrs'))%Z).
  { unfold round_nearest_even.
    destruct (loc_of_shr_record mrs') as [|[]]; try exact H1; [|lia].
    destruct (Z.even _); lia. }
  pose proof (shr_fexp_nonneg _ e' loc_Exact H2) as H3.
  destruct (shr_fexp binary64_prec binary64_emax _ e' loc_Exact)
    as [mrs'' e''].
  cbn [fst] in H3.
  destruct (shr_m mrs'') as [|p|p]; [reflexivity | | lia].
  destruct (_ <=? _)%Z; reflexivity.
Qed.

Lemma nearest_binary64_nonneg (q : Q) :
  (0 <= Qnum q)%Z -> nonnegative (nearest_binary64 q).
Proof.
  intros Hq. unfold nearest_binary64.
  destruct (Qnum q) as [|m|m]; [reflexivity | | lia].
  unfold SFdiv_core_binary.
  set (m' := match _ with Z0 => _ | Zpos _ => _ | Zneg _ => _ end).
  assert (Hm' : (0 <= m')%Z).
  { subst m'. destruct (_ - _)%Z; try lia. apply Z.shiftl_nonneg. lia. }
  pose proof (Z.div_pos m' (Zpos (Qden q)) Hm' (Pos2Z.is_pos _)) as Hdiv.
  unfold Z.div in Hdiv.
  destruct (Z.div_eucl m' (Zpos (Qden q))) as [mz r]. cbn [fst] in Hdiv.
  apply binary_round_aux_nonneg, Hdiv.
Qed.

Lemma float_nonneg (s : text) (f : binary64) :
  float s = Ok f -> nonnegative f.
Proof.
  intros E. apply float_numeral in E as (v & Hv & ->).
  apply nearest_binary64_nonneg.
  destruct Hv; cbn [Qnum]; apply N2Z.is_nonneg.
Qed.

(** ** The parsers on the examples of their docstrings *)

Example parse_price_docstring :
  parse_price (163 :: str "53.74")
  = Ok (S754_finite false 7563232624215327 (-47)).
Proof. vm_compute. reflexivity. Qed.

Example parse_price_drops_sign_and_exponent :
  parse_price (str "-1e5") = Ok (nearest_binary64 15).
Proof. vm_compute. reflexivity. Qed.

Example parse_price_arabic_indic :
  parse_price [1635; 46; 1637] = Ok (nearest_binary64 3.5).
Proof. vm_compute. reflexivity. Qed.

Example float_tie_to_even :
  float (str "9007199254740993")
  = Ok (S754_finite false 4503599627370496 1)
  /\ float (str "9007199254740995")
     = Ok (S754_finite false 4503599627370498 1).
Proof. split; vm_compute; reflexivity. Qed.

Example float_largest_and_overflow :
  float (str "17976931348623157" ++ repeat 48 292)
  = Ok (S754_finite false 9007199254740991 971)
  /\ float (str "18" ++ repeat 48 307) = Ok (S754_infinity false).
Proof. split; vm_compute; reflexivity. Qed.

Example float_smallest_and_underflow :
  float (str "0." ++ repeat 48 323 ++ str "5")
  = Ok (S754_finite false 1 (-1074))
  /\ float (str "0." ++ repeat 48 323 ++ str "2") = Ok (S754_zero false).
Proof. split; vm_compute; reflexivity. Qed.

Example parse_rating_three :
  parse_rating [str "star-rating"; str "Three"] = Some 3.
Proof. reflexivity. Qed.

Example parse_rating_NA : parse_rating [str "star-rating"] = None.
Proof. reflexivity. Qed.

Example parse_availability_docstring :
  parse_availability (str "In stock (22 available)") = Ok (Some 22).
Proof. reflexivity. Qed.

Example parse_availability_NA : parse_availability (str "In stock") = Ok None.
Proof. reflexivity. Qed.

Example strip_title :
  strip (str "  A Light in the Attic ") = str "A Light in the Attic".
Proof. reflexivity. Qed.

(** ** The crawl *)

Lemma Forall2_In_right {A B} (R : A -> B -> Prop) (l : list A) (l' : list B)
    (y : B) :
  Forall2 R l l' -> In y l' -> exists x, In x l /\ R x y.
Proof.
  induction 1 as [|x y' l l' Hxy _ IH]; simpl; [contradiction|].
  intros [<-|Hy].
  - exists x; auto.
  - destruct (IH Hy) as (x' & Hx' & HR). exists x'; auto.
Qed.

Section CrawlProperties.
Context {runtime : Runtime}.
Variable fetch : text -> option BeautifulSoup.

Lemma scrape_card_ok (url : text) (art : product_pod) (log log' : list text)
    (r : row) :
  scrape_card fetch url art log = (log', Ok r) <->
  card_row fetch url art r /\ log' = log ++ [DetailURL r].
Proof.
  unfold scrape_card, card_row, bind_crawl, lift, get_soup, ret.
  destruct (card_fields url art) as [p|e]; split.
  - destruct (fetch (p_detail_url p)) as [d|] eqn:Ed; [|congruence].
    intros E; injection E as <- <-. split; [|reflexivity].
    exists p, d. repeat split; assumption.
  - intros [(p' & d & E & Ed & ->) ->]. injection E as <-.
    rewrite Ed. reflexivity.
  - congruence.
  - intros [(p' & d & E & _) _]. congruence.
Qed.

(** A card whose own fields fail requests nothing. *)
Lemma scrape_card_fields_raise (url : text) (art : product_pod)
    (log : list text) (e : exn) :
  card_fields url art = Raise e ->
  scrape_card fetch url art log = (log, Raise e).
Proof.
  intros E. unfold scrape_card, bind_crawl, lift. rewrite E. reflexivity.
Qed.

(** A card requests at most one page, its detail page. *)
Lemma scrape_card_log (url : text) (art : product_pod) (log log' : list text)
    (x : result row) :
  scrape_card fetch url art log = (log', x) ->
  log' = log \/ exists u, log' = log ++ [u].
Proof.
  unfold scrape_card, bind_crawl, lift, get_soup, ret.
  destruct (card_fields url art) as [p|e].
  - destruct (fetch (p_detail_url p)); intros E; injection E as <- _; eauto.
  - intros E; injection E as <- _; eauto.
Qed.

Lemma scrape_cards_app (url : text) (pre post : list product_pod)
    (rows : list row) (log : list text) :
  scrape_cards fetch url (pre ++ post) rows log =
  match scrape_cards fetch url pre rows log with
  | (log1, Ok rows1) => scrape_cards fetch url post rows1 log1
  | (log1, Raise e) => (log1, Raise e)
  end.
Proof.
  revert rows log. induction pre as [|art pre IH]; intros rows log.
  - reflexivity.
  - cbn [scrape_cards app]. unfold bind_crawl.
    destruct (scrape_card fetch url art log) as [log1 [r|e]]; [|reflexivity].
    apply IH.
Qed.

(** The cards of a page all succeed exactly when each has its row; the rows
    are appended in document order and each costs one request. *)
Lemma scrape_cards_ok (url : text) (arts : list product_pod)
    (rows rows' : list row) (log log' : list text) :
  scrape_cards fetch url arts rows log = (log', Ok rows') <->
  exists new, Forall2 (card_row fetch url) arts new /\
              rows' = rows ++ new /\ log' = log ++ map DetailURL new.
Proof.
  revert rows log. induction arts as [|art arts IH]; intros rows log.
  - cbn [scrape_cards]. unfold ret. split.
    + intros E; injection E as <- <-. exists []. simpl.
      rewrite !app_nil_r. repeat split. constructor.
    + intros (new & Hnew & -> & ->). inversion Hnew; subst. simpl.
      rewrite !app_nil_r. reflexivity.
  - cbn [scrape_cards]. unfold bind_crawl. split.
    + destruct (scrape_card fetch url art log) as [log1 [r|e]] eqn:Ecard;
        [|congruence].
      apply scrape_card_ok in Ecard as [Hr ->].
      intros E. apply IH in E as (new & Hnew & -> & ->).
      exists (r :: new). simpl. rewrite <- !app_assoc. simpl.
      repeat split. constructor; assumption.
    + intros (new & Hnew & -> & ->).
      inversion Hnew as [|art' r arts' new' Hr Hnew']; subst.
      rewrite (proj2 (scrape_card_ok url art log _ r) (conj Hr eq_refl)).
      apply IH. exists new'. simpl. rewrite <- !app_assoc. simpl.
      repeat split. assumption.
Qed.

(** The cards of a page fail at the first card that fails. *)
Lemma scrape_cards_raise (url : text) (pre post : list product_pod)
    (art : product_pod) (rows rows1 : list row) (log log1 log2 : list text)
    (e : exn) :
  scrape_cards fetch url pre rows log = (log1, Ok rows1) ->
  scrape_card fetch url art log1 = (log2, Raise e) ->
  scrape_cards fetch url (pre ++ art :: post) rows log = (log2, Raise e).
Proof.
  intros Hpre Hart. rewrite scrape_cards_app, Hpre.
  cbn [scrape_cards]. unfold bind_crawl. rewrite Hart. reflexivity.
Qed.

(** A card that fails makes the loop over the cards fail, whatever the cards
    before it do. *)
Lemma scrape_cards_failing_card (url : text) (pre post : list product_pod)
    (art : product_pod) (rows : list row) (log : list text) :
  (forall log1, exists log2 e,
     scrape_card fetch url art log1 = (log2, Raise e)) ->
  exists log' e,
    scrape_cards fetch url (pre ++ art :: post) rows log = (log', Raise e).
Proof.
  intros Hart. rewrite scrape_cards_app.
  destruct (scrape_cards fetch url pre rows log) as [log1 [rows1|e]].
  - destruct (Hart log1) as (log2 & e & E).
    exists log2, e. cbn [scrape_cards]. unfold bind_crawl.
    rewrite E. reflexivity.
  - exists log1, e. reflexivity.
Qed.

(** One round of the [while] loop. *)
Lemma scrape_loop_S (fuel : nat) (url : text) (rows : list row)
    (log : list text) :
  scrape_loop fetch (S fuel) url rows log =
  match fetch url with
  | None => (log ++ [url], Some (Raise RequestException))
  | Some soup =>
      match scrape_cards fetch url (product_pods soup) rows (log ++ [url]) with
      | (log2, Raise e) => (log2, Some (Raise e))
      | (log2, Ok rows') =>
          match next_a soup with
          | None => (log2, Some (Ok rows'))
          | Some next =>
              match urljoin url (get next (str "href") []) with
              | Raise e => (log2, Some (Raise e))
              | Ok url' => scrape_loop fetch fuel url' rows' log2
              end
          end
      end
  end.
Proof.
  cbn [scrape_loop]. unfold get_soup. destruct (fetch url); reflexivity.
Qed.

(** More fuel does not change a run that has ended. *)
Lemma scrape_loop_more_fuel (fuel fuel' : nat) (url : text) (rows : list row)
    (log log' : list text) (r : result (list row)) :
  scrape_loop fetch fuel url rows log = (log', Some r) ->
  (fuel <= fuel')%nat ->
  scrape_loop fetch fuel' url rows log = (log', Some r).
Proof.
  revert fuel' url rows log.
  induction fuel as [|fuel IH]; intros fuel' url rows log.
  - cbn [scrape_loop]. congruence.
  - intros E Hle. destruct fuel' as [|fuel']; [lia|].
    rewrite scrape_loop_S in E |- *.
    destruct (fetch url) as [soup|]; [|exact E].
    destruct (scrape_cards _ _ _ _ _) as [log2 [rows'|e]]; [|exact E].
    destruct (next_a soup) as [next|]; [|exact E].
    destruct (urljoin url _) as [url'|e]; [|exact E].
    apply IH; [exact E | lia].
Qed.

(** Every row of a completed crawl is the row of a card of a list page. *)
Lemma scrape_loop_rows (fuel : nat) (url : text) (rows rows' : list row)
    (log log' : list text) :
  scrape_loop fetch fuel url rows log = (log', Some (Ok rows')) ->
  exists new, rows' = rows ++ new /\ Forall (produced fetch) new.
Proof.
  revert url rows log.
  induction fuel as [|fuel IH]; intros url rows log.
  - cbn [scrape_loop]. congruence.
  - rewrite scrape_loop_S.
    destruct (fetch url) as [soup|] eqn:Efetch; [|congruence].
    destruct (scrape_cards _ _ _ _ _) as [log2 [rows1|e]] eqn:Ecards;
      [|congruence].
    apply scrape_cards_ok in Ecards as (new & Hnew & -> & ->).
    assert (Hprod : Forall (produced fetch) new).
    { apply Forall_forall. intros r Hr.
      destruct (Forall2_In_right _ _ _ _ Hnew Hr) as (art & Hart & Hrow).
      exists url, soup, art. repeat split; assumption. }
    destruct (next_a soup) as [next|].
    + destruct (urljoin url _) as [url'|e]; [|congruence].
      intros E. apply IH in E as (new' & -> & Hnew').
      exists (new ++ new'). rewrite app_assoc. split; [reflexivity|].
      apply Forall_app; split; assumption.
    + intros E; injection E as <- <-. exists new. split; [reflexivity|].
      exact Hprod.
Qed.

End CrawlProperties.

Section CardProperties.
Context {runtime : Runtime}.

(** What a card must have for lines 88-95 to succeed. *)
Lemma card_fields_ok (url : text) (art : product_pod) (p : partial_row) :
  card_fields url art = Ok p <->
  exists heading anchor price_text classes availability_text,
    h3 art = Some heading /\ a heading = Some anchor /\
    urljoin url (get anchor (str "href") []) = Ok (p_detail_url p) /\
    price_color art = Some price_text /\
    parse_price price_text = Ok (p_price p) /\
    star_rating art = Some classes /\
    instock_availability art = Some availability_text /\
    parse_availability availability_text = Ok (p_availability p) /\
    p_title p = strip (get anchor (str "title") []) /\
    p_rating p = parse_rating classes.
Proof.
  unfold card_fields, bind, attribute_of, subscript_of. split.
  - destruct (h3 art) as [heading|] eqn:Eh3; [|congruence].
    destruct (a heading) as [anchor|] eqn:Ea; [|congruence].
    destruct (urljoin url _) as [detail_url|] eqn:Eurl; [|congruence].
    destruct (price_color art) as [price_text|] eqn:Ept; [|congruence].
    destruct (parse_price price_text) as [price|] eqn:Eprice; [|congruence].
    destruct (star_rating art) as [classes|] eqn:Ecl; [|congruence].
    destruct (instock_availability art) as [availability_text|] eqn:Eat;
      [|congruence].
    destruct (parse_availability availability_text) as [availability|] eqn:Eav;
      [|congruence].
    intros E; injection E as <-.
    exists heading, anchor, price_text, classes, availability_text.
    cbn [p_detail_url p_price p_availability p_title p_rating].
    repeat split; assumption.
  - intros (heading & anchor & price_text & classes & availability_text
            & -> & -> & -> & -> & -> & -> & -> & -> & Et & Er).
    destruct p; simpl in *; subst; reflexivity.
Qed.

(** A card without a price node never gets past line 92; it stops there with
    an AttributeError unless it has stopped before. *)
Lemma card_fields_unpriced (url : text) (art : product_pod) :
  price_color art = None ->
  exists e, card_fields url art = Raise e /\
    ((forall heading anchor,
         h3 art = Some heading -> a heading = Some anchor ->
         exists u, urljoin url (get anchor (str "href") []) = Ok u) ->
     e = AttributeError).
Proof.
  intros Eprice. unfold card_fields, bind, attribute_of. rewrite Eprice.
  destruct (h3 art) as [heading|] eqn:Eh3; [|eauto].
  destruct (a heading) as [anchor|] eqn:Ea; [|eauto].
  destruct (urljoin url _) as [detail_url|e] eqn:Eurl; [eauto|].
  exists e; split; [reflexivity|].
  intros Hres. destruct (Hres heading anchor eq_refl Ea) as [u Hu].
  congruence.
Qed.

End CardProperties.

Section LogProperties.
Context {runtime : Runtime}.
Variable fetch : text -> option BeautifulSoup.

(** The cards of a page request at most one page each. *)
Lemma scrape_cards_log (url : text) (arts : list product_pod)
    (rows : list row) (log log' : list text) (x : result (list row)) :
  scrape_cards fetch url arts rows log = (log', x) ->
  exists ext, log' = log ++ ext /\ (List.length ext <= List.length arts)%nat.
Proof.
  revert rows log. induction arts as [|art arts IH]; intros rows log.
  - cbn [scrape_cards]. unfold ret. intros E; injection E as <- _.
    exists []. rewrite app_nil_r. split; [reflexivity | simpl; lia].
  - cbn [scrape_cards]. unfold bind_crawl.
    destruct (scrape_card fetch url art log) as [log1 r] eqn:Ecard.
    apply scrape_card_log in Ecard.
    assert (Hext : exists ext1, log1 = log ++ ext1
                                /\ (List.length ext1 <= 1)%nat).
    { destruct Ecard as [->|[u ->]].
      - exists []. rewrite app_nil_r. split; [reflexivity | simpl; lia].
      - exists [u]. split; [reflexivity | simpl; lia]. }
    destruct Hext as (ext1 & -> & Hlen1).
    destruct r as [r|e].
    + intros E. apply IH in E as (ext & -> & Hlen).
      exists (ext1 ++ ext). rewrite app_assoc. split; [reflexivity|].
      rewrite length_app. simpl. lia.
    + intros E; injection E as <- _.
      exists ext1. split; [reflexivity | simpl; lia].
Qed.

(** A round of the loop first requests the list page. *)
Lemma scrape_loop_log (fuel : nat) (url : text) (rows : list row)
    (log : list text) :
  exists ext, fst (scrape_loop fetch (S fuel) url rows log) = log ++ url :: ext.
Proof.
  revert url rows log. induction fuel as [|fuel IH]; intros url rows log;
    rewrite scrape_loop_S.
  all: destruct (fetch url) as [soup|]; [|exists []; reflexivity].
  all: destruct (scrape_cards _ _ _ _ _) as [log2 [rows'|e]] eqn:Ecards;
    apply scrape_cards_log in Ecards as (ext & -> & _).
  all: try (exists ext; cbn [fst]; rewrite <- app_assoc; reflexivity).
  all: destruct (next_a soup) as [next|];
    [|exists ext; cbn [fst]; rewrite <- app_assoc; reflexivity].
  all: destruct (urljoin url _) as [url'|e];
    [|exists ext; cbn [fst]; rewrite <- app_assoc; reflexivity].
  - exists ext. cbn [scrape_loop fst]. rewrite <- app_assoc. reflexivity.
  - destruct (IH url' rows' ((log ++ [url]) ++ ext)) as [ext' E].
    rewrite E. exists (ext ++ url' :: ext').
    rewrite <- !app_assoc. reflexivity.
Qed.

End LogProperties.

(** ** Walks *)

(** The text is a run of whitespace, the stripped text and a run of
    whitespace. *)
Lemma strip_outer (s : text) :
  exists l r,
    s = l ++ strip s ++ r
    /\ Forall (fun c => isspace c = true) l
    /\ Forall (fun c => isspace c = true) r.
Proof.
  unfold strip.
  pose proof (take_drop_while isspace s) as Es.
  pose proof (take_while_all isspace s) as Hl.
  set (m := drop_while isspace s) in *.
  pose proof (take_drop_while isspace (rev m)) as Em.
  pose proof (take_while_all isspace (rev m)) as Hr.
  exists (take_while isspace s), (rev (take_while isspace (rev m))).
  repeat split; try assumption.
  - rewrite <- rev_app_distr, Em, rev_involutive. symmetry; exact Es.
  - apply Forall_rev; exact Hr.
Qed.

Lemma Forall2_impl {A B} (R R' : A -> B -> Prop) (l : list A) (l' : list B) :
  (forall x y, R x y -> R' x y) -> Forall2 R l l' -> Forall2 R' l l'.
Proof. intros HR. induction 1; constructor; auto. Qed.

Lemma Forall2_functional {A B} (R : A -> B -> Prop) (l : list A)
    (l1 l2 : list B) :
  (forall x y1 y2, R x y1 -> R x y2 -> y1 = y2) ->
  Forall2 R l l1 -> Forall2 R l l2 -> l1 = l2.
Proof.
  intros HR H1. revert l2.
  induction H1 as [|x y1 l l1 Hxy _ IH]; intros l2 H2;
    inversion H2; subst; [reflexivity|].
  f_equal; [eapply HR; eassumption | apply IH; assumption].
Qed.

Section Walks.
Context {runtime : Runtime}.
Variable fetch : text -> option BeautifulSoup.

Lemma walked_impl (P P' : text -> product_pod -> row -> Prop) (url : text)
    (rows : list row) (log : list text) :
  (forall u art r, P u art r -> P' u art r) ->
  walked fetch P url rows log -> walked fetch P' url rows log.
Proof.
  intros HP. induction 1 as [url soup new Ef En Hnew
                            | url soup next url' new rest log Ef En Eu Hnew _ IH].
  - apply (walked_last fetch P' url soup new Ef En).
    exact (Forall2_impl _ _ _ _ (HP url) Hnew).
  - apply (walked_next fetch P' url soup next url' new rest log Ef En Eu);
      [|exact IH].
    exact (Forall2_impl _ _ _ _ (HP url) Hnew).
Qed.

Lemma card_row_functional (url : text) (art : product_pod) (r1 r2 : row) :
  card_row fetch url art r1 -> card_row fetch url art r2 -> r1 = r2.
Proof.
  intros (p1 & d1 & Ep1 & Ed1 & ->) (p2 & d2 & Ep2 & Ed2 & ->).
  assert (p1 = p2) by congruence. subst p2.
  assert (d1 = d2) by congruence. subst d2. reflexivity.
Qed.

(** The site decides the rows and the requests of a walk. *)
Lemma walked_functional (url : text) (rows1 rows2 : list row)
    (log1 log2 : list text) :
  walked fetch (card_row fetch) url rows1 log1 ->
  walked fetch (card_row fetch) url rows2 log2 ->
  rows1 = rows2 /\ log1 = log2.
Proof.
  intros H1. revert rows2 log2.
  induction H1 as [url soup new Ef En Hnew
                  | url soup next url' new rest log Ef En Eu Hnew _ IH];
    intros rows2 log2 H2;
    inversion H2 as [u2 soup2 new2 Ef2 En2 Hnew2
                    | u2 soup2 next2 url2 new2 rest2 log2' Ef2 En2 Eu2 Hnew2
                        Hrest2]; subst;
    assert (soup2 = soup) by congruence; subst soup2; try congruence.
  - rewrite (Forall2_functional _ _ _ _ (card_row_functional url) Hnew Hnew2).
    split; reflexivity.
  - assert (next2 = next) by congruence. subst next2.
    assert (url2 = url') by congruence. subst url2.
    rewrite (Forall2_functional _ _ _ _ (card_row_functional url) Hnew Hnew2).
    destruct (IH _ _ Hrest2) as [-> ->]. split; reflexivity.
Qed.

(** A run that returns is a walk, and the same walk from whatever rows and
    requests it starts with. *)
Lemma scrape_loop_walked (fuel : nat) (url : text) (rows rows' : list row)
    (log log' : list text) :
  scrape_loop fetch fuel url rows log = (log', Some (Ok rows')) ->
  exists new ext,
    rows' = rows ++ new /\ log' = log ++ ext /\
    walked fetch (card_row fetch) url new ext /\
    forall rows0 log0,
      scrape_loop fetch fuel url rows0 log0
      = (log0 ++ ext, Some (Ok (rows0 ++ new))).
Proof.
  revert url rows log. induction fuel as [|fuel IH]; intros url rows log.
  - cbn [scrape_loop]. congruence.
  - rewrite scrape_loop_S.
    destruct (fetch url) as [soup|] eqn:Ef; [|congruence].
    destruct (scrape_cards _ _ _ _ _) as [log2 [rows1|e]] eqn:Ec;
      [|congruence].
    apply scrape_cards_ok in Ec as (new1 & Hnew1 & -> & ->).
    assert (Hcards : forall rows0 log0,
               scrape_cards fetch url (product_pods soup) rows0 (log0 ++ [url])
               = ((log0 ++ [url]) ++ map DetailURL new1, Ok (rows0 ++ new1))).
    { intros rows0 log0. apply scrape_cards_ok. exists new1.
      repeat split. exact Hnew1. }
    destruct (next_a soup) as [next|] eqn:En.
    + destruct (urljoin url _) as [url'|e] eqn:Eu; [|congruence].
      intros E. apply IH in E as (new2 & ext2 & -> & -> & Hwalk & Hrun).
      exists (new1 ++ new2), (url :: map DetailURL new1 ++ ext2).
      rewrite <- !app_assoc. cbn [app]. repeat split.
      * exact (walked_next fetch _ url soup next url' new1 new2 ext2
                 Ef En Eu Hnew1 Hwalk).
      * intros rows0 log0.
        rewrite scrape_loop_S, Ef, Hcards, En, Eu, Hrun.
        rewrite <- !app_assoc. reflexivity.
    + intros E. injection E as <- <-.
      exists new1, (url :: map DetailURL new1).
      rewrite <- !app_assoc. cbn [app]. repeat split.
      * exact (walked_last fetch _ url soup new1 Ef En Hnew1).
      * intros rows0 log0.
        rewrite scrape_loop_S, Ef, Hcards, En.
        rewrite <- !app_assoc. reflexivity.
Qed.

Lemma card_row_link (url : text) (art : product_pod) (r : row) :
  card_row fetch url art r -> link_resolved url art (DetailURL r).
Proof.
  intros (p & d & Ep & _ & ->).
  apply card_fields_ok in Ep
    as (heading & anchor & _ & _ & _ & Eh & Ea & Eurl & _).
  exists heading, anchor. repeat split; assumption.
Qed.

(** Whatever becomes of a card, the one page it may request is its link
    resolved against the URL of the list page. *)
Lemma scrape_card_link (url : text) (art : product_pod) (log log' : list text)
    (x : result row) :
  scrape_card fetch url art log = (log', x) ->
  (log' = log /\ exists e, x = Raise e)
  \/ (exists u, log' = log ++ [u] /\ link_resolved url art u).
Proof.
  unfold scrape_card, bind_crawl, lift, get_soup, ret.
  destruct (card_fields url art) as [p|e] eqn:Ep.
  - intros E. right. exists (p_detail_url p). split.
    + destruct (fetch (p_detail_url p)); injection E as <- _; reflexivity.
    + apply card_fields_ok in Ep
        as (heading & anchor & _ & _ & _ & Eh & Ea & Eurl & _).
      exists heading, anchor. repeat split; assumption.
  - intros E. injection E as <- <-. left. eauto.
Qed.

Lemma scrape_cards_links (url : text) (arts : list product_pod)
    (rows : list row) (log log' : list text) (x : result (list row)) :
  scrape_cards fetch url arts rows log = (log', x) ->
  exists urls,
    log' = log ++ urls
    /\ Forall2 (link_resolved url) (firstn (List.length urls) arts) urls
    /\ (forall rows', x = Ok rows' -> List.length urls = List.length arts).
Proof.
  revert rows log. induction arts as [|art arts IH]; intros rows log.
  - cbn [scrape_cards]. unfold ret. intros E; injection E as <- _.
    exists []. rewrite app_nil_r. repeat split. constructor.
  - cbn [scrape_cards]. unfold bind_crawl.
    destruct (scrape_card fetch url art log) as [log1 y] eqn:Ecard.
    apply scrape_card_link in Ecard as [[-> [e ->]]|(u & -> & Hu)].
    + intros E; injection E as <- <-.
      exists []. rewrite app_nil_r. repeat split; [constructor|].
      intros rows'; discriminate.
    + destruct y as [r|e].
      * intros E. apply IH in E as (urls & -> & Hurls & Hlen).
        exists (u :: urls). rewrite <- app_assoc. repeat split.
        -- cbn [List.length firstn]. constructor; assumption.
        -- intros rows' Hx. cbn [List.length]. rewrite (Hlen rows' Hx).
           reflexivity.
      * intros E; injection E as <- <-.
        exists [u]. repeat split.
        -- cbn [List.length firstn]. constructor; [exact Hu | constructor].
        -- intros rows'; discriminate.
Qed.

End Walks.

(** * The claims *)

(** ** C1: links are resolved against the page they are on *)

(** C1, the example as the claim has it, is not what the resolver does: against
    http://example.com/catalogue/page-2.html the link
    ../a-light-in-the-attic_1000/index.html does not resolve to
    http://example.com/catalogue/a-light-in-the-attic_1000/index.html, and its
    resolution does not differ from the one against the site root. *)
Lemma claimed_resolution_refuted :
  @urljoin Fixture.plain_runtime
     (str "http://example.com/catalogue/page-2.html")
     (str "../a-light-in-the-attic_1000/index.html")
  <> Ok (str "http://example.com/catalogue/a-light-in-the-attic_1000/index.html")
  /\ @urljoin Fixture.plain_runtime
        (str "http://example.com/catalogue/page-2.html")
        (str "../a-light-in-the-attic_1000/index.html")
     = @urljoin Fixture.plain_runtime
         (str "http://example.com/")
         (str "../a-light-in-the-attic_1000/index.html").
Proof.
  split; [|vm_compute; reflexivity].
  vm_compute. intros E. discriminate E.
Qed.

(** C1, amended.  Every link found on a page is resolved against the URL of
    that page.  In a crawl that returns, the rows and the requests are those
    of a walk in which every row has as detail URL the [href] of its own card
    resolved against the URL of the list page the card is on, every list page
    after the first is the next link of the page before resolved against the
    URL of that page, and the pages requested are these URLs.  In any round of
    the loop, however it ends, the pages requested after the list page are
    the links of its first cards, each resolved against the URL of the list
    page, and what is requested after them starts with the next link resolved
    against that URL.  Against http://example.com/catalogue/page-2.html the
    link ../a-light-in-the-attic_1000/index.html resolves to
    http://example.com/a-light-in-the-attic_1000/index.html (the leading [..]
    removes [catalogue]), which is what the site root gives as well; the link
    a-light-in-the-attic_1000/index.html resolves to
    http://example.com/catalogue/a-light-in-the-attic_1000/index.html against
    the page and to another URL against the root. *)
Theorem links_resolved_against_current_page `{Runtime}
    (fetch : text -> option BeautifulSoup) :
  (forall fuel start_url log rows,
      scrape_books fetch fuel start_url = (log, Some (Ok rows)) ->
      walked fetch (fun url art r => link_resolved url art (DetailURL r))
             start_url rows log)
  /\ (forall fuel url soup rows log log' x,
        fetch url = Some soup ->
        scrape_loop fetch (S fuel) url rows log = (log', x) ->
        exists urls tail,
          log' = log ++ url :: urls ++ tail
          /\ Forall2 (link_resolved url)
                     (firstn (List.length urls) (product_pods soup)) urls
          /\ (tail = []
              \/ exists next url' ext,
                   next_a soup = Some next
                   /\ urljoin url (get next (str "href") []) = Ok url'
                   /\ List.length urls = List.length (product_pods soup)
                   /\ tail = url' :: ext))
  /\ urljoin (str "http://example.com/catalogue/page-2.html")
             (str "../a-light-in-the-attic_1000/index.html")
     = Ok (str "http://example.com/a-light-in-the-attic_1000/index.html")
  /\ urljoin (str "http://example.com/")
             (str "../a-light-in-the-attic_1000/index.html")
     = Ok (str "http://example.com/a-light-in-the-attic_1000/index.html")
  /\ urljoin (str "http://example.com/catalogue/page-2.html")
             (str "a-light-in-the-attic_1000/index.html")
     = Ok (str "http://example.com/catalogue/a-light-in-the-attic_1000/index.html")
  /\ urljoin (str "http://example.com/")
             (str "a-light-in-the-attic_1000/index.html")
     = Ok (str "http://example.com/a-light-in-the-attic_1000/index.html")
  /\ str "http://example.com/catalogue/a-light-in-the-attic_1000/index.html"
     <> str "http://example.com/a-light-in-the-attic_1000/index.html".
Proof.
  split; [|split; [|repeat split; try (vm_compute; reflexivity)]].
  - intros fuel start_url log rows E.
    apply scrape_loop_walked in E as (new & ext & -> & -> & Hwalk & _).
    cbn [app]. apply (walked_impl fetch (card_row fetch)); [|exact Hwalk].
    intros u art r. apply card_row_link.
  - intros fuel url soup rows log log' x Ef.
    rewrite scrape_loop_S, Ef.
    destruct (scrape_cards _ _ _ _ _) as [log2 y] eqn:Ec.
    apply scrape_cards_links in Ec as (urls & -> & Hurls & Hlen).
    assert (Hstop : (log ++ [url]) ++ urls = log' ->
              exists urls0 tail,
                log' = log ++ url :: urls0 ++ tail
                /\ Forall2 (link_resolved url)
                     (firstn (List.length urls0) (product_pods soup)) urls0
                /\ (tail = []
                    \/ exists next url' ext,
                         next_a soup = Some next
                         /\ urljoin url (get next (str "href") []) = Ok url'
                         /\ List.length urls0
                            = List.length (product_pods soup)
                         /\ tail = url' :: ext)).
    { intros <-. exists urls, []. rewrite <- app_assoc, app_nil_r.
      repeat split; [exact Hurls | left; reflexivity]. }
    destruct y as [rows'|e];
      [|intros E; injection E as E1 _; exact (Hstop E1)].
    destruct (next_a soup) as [next|] eqn:En;
      [|intros E; injection E as E1 _; exact (Hstop E1)].
    destruct (urljoin url _) as [url'|e] eqn:Eu;
      [|intros E; injection E as E1 _; exact (Hstop E1)].
    destruct fuel as [|fuel].
    + cbn [scrape_loop]. intros E; injection E as E1 _; exact (Hstop E1).
    + intros E.
      destruct (scrape_loop_log fetch fuel url' rows'
                  ((log ++ [url]) ++ urls)) as [ext Eext].
      rewrite E in Eext. cbn [fst] in Eext. subst log'.
      exists urls, (url' :: ext). rewrite <- !app_assoc.
      repeat split; [exact Hurls|].
      right. exists next, url', ext.
      repeat split; [exact Eu | exact (Hlen rows' eq_refl)].
  - vm_compute. intros E. discriminate E.
Qed.

(** The fixture site: both books are at their links resolved against the list
    page each is on, the second list page is the next link of the first
    resolved against the first.  And the round that stops at the unpriced
    card has requested the first card's link resolved against the page. *)
Lemma links_resolved_on_fixture :
  @walked Fixture.plain_runtime (Fixture.serve Fixture.books)
     (fun url art r =>
        @link_resolved Fixture.plain_runtime url art (DetailURL r))
     Fixture.root_url [Fixture.attic_row; Fixture.wake_row]
     [Fixture.root_url; Fixture.attic_url; Fixture.page2_url;
      Fixture.wake_url]
  /\ exists urls tail,
       [Fixture.root_url; Fixture.attic_url]
       = [] ++ Fixture.root_url :: urls ++ tail
       /\ Forall2 (@link_resolved Fixture.plain_runtime Fixture.root_url)
            (firstn (List.length urls)
                    (product_pods
                       (mkSoup [Fixture.attic_pod; Fixture.unpriced_pod]
                               None None [])))
            urls
       /\ (tail = []
           \/ exists next url' ext,
                next_a (mkSoup [Fixture.attic_pod; Fixture.unpriced_pod]
                               None None []) = Some next
                /\ @urljoin Fixture.plain_runtime Fixture.root_url
                      (get next (str "href") []) = Ok url'
                /\ List.length urls
                   = List.length
                       (product_pods
                          (mkSoup [Fixture.attic_pod; Fixture.unpriced_pod]
                                  None None []))
                /\ tail = url' :: ext).
Proof.
  split.
  - apply (proj1 (@links_resolved_against_current_page Fixture.plain_runtime
                    (Fixture.serve Fixture.books)) 2%nat).
    vm_compute. reflexivity.
  - apply (proj1 (proj2 (@links_resolved_against_current_page
                           Fixture.plain_runtime
                           (Fixture.serve Fixture.unpriced)))
             O Fixture.root_url _ [] [] _ (Some (Raise AttributeError)));
      vm_compute; reflexivity.
Defined.

(** ** C2: a card without price is fatal, a detail page without table is not *)

(** C2.  On a list page that has a card without a price node the crawl never
    returns rows: it raises, whatever the other cards are.  When the cards
    before that one have their rows and the card's own link resolves, the
    exception is the AttributeError of line 92, a MalformedItemError in the
    words of the specification.  A detail page without the first data cell of
    the attributes table raises nothing: the card gets its row, with the empty
    string as UPC, and the loop goes on to the next card. *)
Theorem missing_price_fatal_missing_table_tolerated `{Runtime}
    (fetch : text -> option BeautifulSoup) :
  (forall fuel url soup pre art post rows log,
      fetch url = Some soup ->
      product_pods soup = pre ++ art :: post ->
      price_color art = None ->
      (exists log' e,
          scrape_loop fetch (S fuel) url rows log = (log', Some (Raise e)))
      /\ (forall log1 rows1,
            scrape_cards fetch url pre rows (log ++ [url]) = (log1, Ok rows1) ->
            (forall heading anchor,
                h3 art = Some heading -> a heading = Some anchor ->
                exists u, urljoin url (get anchor (str "href") []) = Ok u) ->
            scrape_loop fetch (S fuel) url rows log
            = (log1, Some (Raise AttributeError))))
  /\ kind_of AttributeError = MalformedItemError
  /\ (forall url art arts p d rows log,
        card_fields url art = Ok p ->
        fetch (p_detail_url p) = Some d ->
        upc_cell d = None ->
        exists r,
          scrape_card fetch url art log = (log ++ [p_detail_url p], Ok r)
          /\ UPC r = []
          /\ scrape_cards fetch url (art :: arts) rows log
             = scrape_cards fetch url arts (rows ++ [r])
                            (log ++ [p_detail_url p])).
Proof.
  split; [|split; [reflexivity|]].
  - intros fuel url soup pre art post rows log Ef Epods Eprice.
    destruct (card_fields_unpriced url art Eprice) as (e & Ee & Hkind).
    split.
    + rewrite scrape_loop_S, Ef, Epods.
      destruct (scrape_cards_failing_card fetch url pre post art rows
                  (log ++ [url])) as (log' & e' & E).
      { intros log1. exists log1, e.
        apply scrape_card_fields_raise; exact Ee. }
      rewrite E. eauto.
    + intros log1 rows1 Epre Hres.
      rewrite scrape_loop_S, Ef, Epods.
      rewrite (scrape_cards_raise fetch url pre post art rows rows1
                 (log ++ [url]) log1 log1 e Epre
                 (scrape_card_fields_raise fetch url art log1 e Ee)).
      rewrite (Hkind Hres). reflexivity.
  - intros url art arts p d rows log Ep Ed Eupc.
    assert (Ecard : scrape_card fetch url art log
                    = (log ++ [p_detail_url p], Ok (complete p d))).
    { apply scrape_card_ok. split; [|reflexivity].
      exists p, d. repeat split; assumption. }
    exists (complete p d). split; [exact Ecard|]. split.
    + unfold complete, upc_of. simpl. rewrite Eupc. reflexivity.
    + cbn [scrape_cards]. unfold bind_crawl. rewrite Ecard. reflexivity.
Qed.

(** The list page with an unpriced second card aborts the crawl with the
    AttributeError; the detail page of the second book of the fixture site has
    no table and the book gets its row. *)
Lemma missing_price_and_table_on_fixture :
  @scrape_loop Fixture.plain_runtime (Fixture.serve Fixture.unpriced) 1
     Fixture.root_url [] []
  = ([Fixture.root_url; Fixture.attic_url], Some (Raise AttributeError))
  /\ exists r,
       @scrape_card Fixture.plain_runtime (Fixture.serve Fixture.books)
          Fixture.page2_url Fixture.wake_pod
          [Fixture.root_url; Fixture.attic_url; Fixture.page2_url]
       = ([Fixture.root_url; Fixture.attic_url; Fixture.page2_url]
            ++ [Fixture.wake_url], Ok r)
       /\ UPC r = [].
Proof.
  split.
  - destruct (@missing_price_fatal_missing_table_tolerated
                Fixture.plain_runtime (Fixture.serve Fixture.unpriced))
      as (Hfatal & _).
    destruct (Hfatal O Fixture.root_url
                (mkSoup [Fixture.attic_pod; Fixture.unpriced_pod]
                        None None [])
                [Fixture.attic_pod] Fixture.unpriced_pod [] [] []
                eq_refl eq_refl eq_refl) as (_ & Hkind).
    apply (Hkind [Fixture.root_url; Fixture.attic_url] [Fixture.attic_row]).
    + vm_compute. reflexivity.
    + intros heading anchor Eh Ea.
      injection Eh as <-. injection Ea as <-.
      eexists. vm_compute. reflexivity.
  - destruct (@missing_price_fatal_missing_table_tolerated
                Fixture.plain_runtime (Fixture.serve Fixture.books))
      as (_ & _ & Htable).
    destruct (Htable Fixture.page2_url Fixture.wake_pod []
                (mkPartial [] (nearest_binary64 12.84) (Some 1) (Some 22) Fixture.wake_url)
                Fixture.wake_page []
                [Fixture.root_url; Fixture.attic_url; Fixture.page2_url])
      as (r & Er & Eupc & _);
      [vm_compute; reflexivity .. |].
    exists r. split; [exact Er | exact Eupc].
Defined.

(** ** C3: a page without next link is the last *)

(** C3.  On a list page without a next link the loop makes this round and no
    other, whatever fuel is left: it ends, having requested the list page and
    then at most one page per card.  When the cards of the page have their
    rows, it returns the rows it had followed by these, in document order,
    having requested the list page and then the detail page of each card,
    nothing else. *)
Theorem no_next_link_ends_walk `{Runtime}
    (fetch : text -> option BeautifulSoup) (fuel : nat) (url : text)
    (soup : BeautifulSoup) (rows : list row) (log : list text) :
  fetch url = Some soup ->
  next_a soup = None ->
  scrape_loop fetch (S fuel) url rows log = scrape_loop fetch 1 url rows log
  /\ (exists ext x,
        scrape_loop fetch (S fuel) url rows log = (log ++ url :: ext, Some x)
        /\ (List.length ext <= List.length (product_pods soup))%nat)
  /\ (forall new,
        Forall2 (card_row fetch url) (product_pods soup) new ->
        scrape_loop fetch (S fuel) url rows log
        = (log ++ url :: map DetailURL new, Some (Ok (rows ++ new)))).
Proof.
  intros Ef En.
  rewrite !scrape_loop_S, Ef, En. split; [|split].
  - destruct (scrape_cards _ _ _ _ _) as [log2 [rows'|e]]; reflexivity.
  - destruct (scrape_cards _ _ _ _ _) as [log2 x] eqn:Ecards.
    apply scrape_cards_log in Ecards as (ext & -> & Hlen).
    rewrite <- app_assoc. simpl.
    exists ext. destruct x as [rows'|e]; eauto.
  - intros new Hnew.
    rewrite (proj2 (scrape_cards_ok fetch url (product_pods soup) rows
                      (rows ++ new) (log ++ [url])
                      ((log ++ [url]) ++ map DetailURL new))).
    + rewrite <- app_assoc. reflexivity.
    + exists new. repeat split. exact Hnew.
Qed.

(** The second list page of the fixture site has no next link. *)
Lemma no_next_link_on_fixture :
  @scrape_loop Fixture.plain_runtime (Fixture.serve Fixture.books) 7
     Fixture.page2_url [Fixture.attic_row]
     [Fixture.root_url; Fixture.attic_url]
  = ([Fixture.root_url; Fixture.attic_url]
       ++ Fixture.page2_url :: map DetailURL [Fixture.wake_row],
     Some (Ok ([Fixture.attic_row] ++ [Fixture.wake_row]))).
Proof.
  refine (proj2 (proj2 (@no_next_link_ends_walk Fixture.plain_runtime
            (Fixture.serve Fixture.books) 6 Fixture.page2_url Fixture.page2
            [Fixture.attic_row] [Fixture.root_url; Fixture.attic_url]
            eq_refl eq_refl)) [Fixture.wake_row] _).
  constructor; [|constructor].
  exists (mkPartial [] (nearest_binary64 12.84) (Some 1) (Some 22) Fixture.wake_url),
         Fixture.wake_page.
  vm_compute. repeat split.
Defined.

(** ** C4: parse_price *)

(** C4, as the claim has it, fails: the text 9007199254740993 is a decimal
    numeral, and [parse_price] returns for it not the number it denotes but
    9007199254740992, the binary64 number nearest to it. *)
Lemma parse_price_rounds :
  parse_price (str "9007199254740993")
  = Ok (S754_finite false 4503599627370496 1)
  /\ exact_value (S754_finite false 4503599627370496 1)
     = Some (9007199254740992)%Q
  /\ decimal_numeral (str "9007199254740993") (9007199254740993)%Q
  /\ ~ (9007199254740992 == 9007199254740993)%Q.
Proof.
  split; [vm_compute; reflexivity|].
  split; [vm_compute; reflexivity|].
  split; [|vm_compute; discriminate].
  change (9007199254740993)%Q
    with (Qmake (Z.of_N (digits_value (str "9007199254740993"))) 1).
  constructor; [repeat constructor | discriminate].
Qed.

(** C4, amended.  [parse_price] reads the text that is left once every
    character that is neither a decimal digit nor a dot is removed: when that
    is a decimal numeral (digits with at most one dot among them, as float()
    reads them) it returns the binary64 number nearest to the number the
    numeral denotes, and when it is not (nothing left, two dots, a dot alone)
    it raises ValueError, the ParseError of the specification, and returns
    nothing.  So "£53.74" gives the binary64 number written 53.74, which is
    7563232624215327 / 2^47; a numeral beyond the binary64 range gives the
    infinity; and "£--", "1.2.3" and the empty text raise. *)
Theorem parse_price_reads_stripped_numeral (t : text) :
  let stripped := filter (fun c => isdecimal c || (c =? dot)) t in
  (forall v, decimal_numeral stripped v ->
             parse_price t = Ok (nearest_binary64 v))
  /\ (forall f, parse_price t = Ok f ->
                exists v, decimal_numeral stripped v
                          /\ f = nearest_binary64 v)
  /\ ((forall v, ~ decimal_numeral stripped v) ->
      parse_price t = Raise ValueError)
  /\ parse_price (163 :: str "53.74")
     = Ok (S754_finite false 7563232624215327 (-47))
  /\ nearest_binary64 53.74 = S754_finite false 7563232624215327 (-47)
  /\ parse_price (str "1" ++ repeat 48 400) = Ok (S754_infinity false)
  /\ parse_price (163 :: str "--") = Raise ValueError
  /\ parse_price (str "1.2.3") = Raise ValueError
  /\ parse_price [] = Raise ValueError.
Proof.
  cbv zeta. change (filter _ t) with (sub_non_numeric t).
  split; [|split; [|split]].
  - apply numeral_float.
  - apply float_numeral.
  - unfold parse_price. intros Hnone.
    destruct (float (sub_non_numeric t)) as [f|e] eqn:E.
    + apply float_numeral in E as (v & Hv & _). destruct (Hnone v Hv).
    + apply float_raises in E. rewrite E. reflexivity.
  - repeat split; vm_compute; reflexivity.
Qed.

(** The currency sign goes, the numeral 53.74 stays and is read. *)
Lemma parse_price_pound :
  parse_price (163 :: str "53.74") = Ok (nearest_binary64 53.74).
Proof.
  apply (proj1 (parse_price_reads_stripped_numeral (163 :: str "53.74"))
               (53.74)%Q).
  change (filter _ _) with (str "53" ++ dot :: str "74").
  change (53.74)%Q
    with (Qmake (Z.of_N (digits_value (str "53" ++ str "74")))
                (pow10 (List.length (str "74")))).
  constructor.
  - repeat constructor.
  - repeat constructor.
  - vm_compute. discriminate.
Defined.

(** ** C5: prices are not negative *)

(** C5.  A price that [parse_price] returns is at least zero, and so is the
    Price of every row of a crawl that returns. *)
Theorem price_nonnegative `{Runtime} (fetch : text -> option BeautifulSoup) :
  (forall t f, parse_price t = Ok f -> nonnegative f)
  /\ (forall fuel start_url log rows,
        scrape_books fetch fuel start_url = (log, Some (Ok rows)) ->
        Forall (fun r => nonnegative (Price r)) rows).
Proof.
  split.
  - intros t f. apply float_nonneg.
  - intros fuel start_url log rows E.
    apply scrape_loop_rows in E as (new & -> & Hnew). simpl.
    apply Forall_forall. intros r Hr.
    rewrite Forall_forall in Hnew.
    destruct (Hnew r Hr) as (url & soup & art & _ & _ & p & d & Ep & _ & ->).
    apply card_fields_ok in Ep as (_ & _ & price_text & _ & _ & _ & _ & _ & _
                                   & Eprice & _).
    simpl. exact (float_nonneg _ _ Eprice).
Qed.

(** A minus sign is removed with the rest, and the rows of the fixture site
    have prices that are not negative. *)
Lemma price_nonnegative_on_fixture :
  nonnegative (nearest_binary64 5.00)
  /\ Forall (fun r => nonnegative (Price r))
            [Fixture.attic_row; Fixture.wake_row].
Proof.
  pose proof (@price_nonnegative Fixture.plain_runtime
                (Fixture.serve Fixture.books)) as [Hparse Hrows].
  split.
  - apply (Hparse (str "-5.00")). vm_compute. reflexivity.
  - apply (Hrows 2%nat Fixture.root_url
                 [Fixture.root_url; Fixture.attic_url; Fixture.page2_url;
                  Fixture.wake_url]).
    vm_compute. reflexivity.
Defined.

(** ** C6: titles *)

(** C6, as the claim has it, fails: the second book of the fixture site has no
    title attribute on its anchor, the crawl returns, and the Title of the
    book's row is the empty string. *)
Lemma title_may_be_empty :
  @scrape_books Fixture.plain_runtime (Fixture.serve Fixture.books) 2
     Fixture.root_url
  = ([Fixture.root_url; Fixture.attic_url; Fixture.page2_url;
      Fixture.wake_url],
     Some (Ok [Fixture.attic_row; Fixture.wake_row]))
  /\ Title Fixture.wake_row = [].
Proof. split; vm_compute; reflexivity. Qed.

(** C6, amended.  In a crawl that returns, the Title of every row is the
    title attribute of the anchor of the row's own card (the card whose link,
    resolved against its list page, is the row's detail URL), the empty string
    when the anchor has none, with the whitespace at both ends removed: the
    attribute is a run of whitespace, the Title and a run of whitespace, and
    the Title neither starts nor ends with whitespace.  It may be empty, and
    is when the anchor has no title attribute. *)
Theorem titles_are_stripped `{Runtime} (fetch : text -> option BeautifulSoup)
    (fuel : nat) (start_url : text) (log : list text) (rows : list row) :
  scrape_books fetch fuel start_url = (log, Some (Ok rows)) ->
  walked fetch
    (fun url art r =>
       exists heading anchor before after,
         h3 art = Some heading /\ a heading = Some anchor /\
         urljoin url (get anchor (str "href") []) = Ok (DetailURL r) /\
         get anchor (str "title") [] = before ++ Title r ++ after /\
         Forall (fun c => isspace c = true) before /\
         Forall (fun c => isspace c = true) after /\
         head_free isspace (Title r) /\
         head_free isspace (rev (Title r)) /\
         (Forall (fun kv => fst kv <> str "title") (attrs anchor) ->
          Title r = []))
    start_url rows log.
Proof.
  intros E. apply scrape_loop_walked in E as (new & ext & -> & -> & Hwalk & _).
  cbn [app]. apply (walked_impl fetch (card_row fetch)); [|exact Hwalk].
  intros url art r (p & d & Ep & _ & ->).
  apply card_fields_ok in Ep as (heading & anchor & _ & _ & _ & Eh & Ea & Eurl
                                 & _ & _ & _ & _ & _ & Et & _).
  cbn [complete Title DetailURL]. rewrite Et.
  destruct (strip_outer (get anchor (str "title") []))
    as (before & after & Es & Hb & Ha).
  destruct (strip_head_free (get anchor (str "title") [])) as [H1 H2].
  exists heading, anchor, before, after.
  repeat split; try assumption.
  intros Habsent. unfold get.
  rewrite (attrs_get_absent _ _ _ Habsent). reflexivity.
Qed.

(** The titles of the fixture site: the first book's is its attribute, the
    second book's is empty. *)
Lemma titles_on_fixture :
  @walked Fixture.plain_runtime (Fixture.serve Fixture.books)
    (fun url art r =>
       exists heading anchor before after,
         h3 art = Some heading /\ a heading = Some anchor /\
         @urljoin Fixture.plain_runtime url (get anchor (str "href") [])
         = Ok (DetailURL r) /\
         get anchor (str "title") [] = before ++ Title r ++ after /\
         Forall (fun c => isspace c = true) before /\
         Forall (fun c => isspace c = true) after /\
         head_free isspace (Title r) /\
         head_free isspace (rev (Title r)) /\
         (Forall (fun kv => fst kv <> str "title") (attrs anchor) ->
          Title r = []))
    Fixture.root_url [Fixture.attic_row; Fixture.wake_row]
    [Fixture.root_url; Fixture.attic_url; Fixture.page2_url;
     Fixture.wake_url].
Proof.
  apply (@titles_are_stripped Fixture.plain_runtime
           (Fixture.serve Fixture.books) 2 Fixture.root_url).
  vm_compute. reflexivity.
Defined.

(** ** C7: the category is the third breadcrumb *)

(** C7.  The category of a detail page is the element at index 2 of its
    breadcrumb labels when there are at least three, and "Books" when there
    are fewer; it is taken by position, whatever the labels are.  The Category
    of a card's row is the category of the page at the row's detail URL. *)
Theorem category_is_third_breadcrumb `{Runtime}
    (fetch : text -> option BeautifulSoup) :
  (forall d,
      ((3 <= List.length (breadcrumb d))%nat ->
       nth_error (breadcrumb d) 2 = Some (category_of d))
      /\ ((List.length (breadcrumb d) < 3)%nat ->
          category_of d = str "Books"))
  /\ (forall pods next upc c0 c1 c2 rest,
        category_of (mkSoup pods next upc (c0 :: c1 :: c2 :: rest)) = c2)
  /\ (forall url art log log' r,
        scrape_card fetch url art log = (log', Ok r) ->
        exists d, fetch (DetailURL r) = Some d /\ Category r = category_of d).
Proof.
  split; [|split].
  - intros d. unfold category_of.
    destruct (breadcrumb d) as [|c0 [|c1 [|c2 rest]]]; simpl; split;
      intros; reflexivity || lia.
  - reflexivity.
  - intros url art log log' r E.
    apply scrape_card_ok in E as [(p & d & _ & Ed & ->) _].
    exists d. split; [exact Ed | reflexivity].
Qed.

(** The two detail pages of the fixture site: four labels, and two. *)
Lemma category_on_fixture :
  nth_error (breadcrumb Fixture.attic_page) 2 = Some (str "Poetry")
  /\ category_of Fixture.wake_page = str "Books"
  /\ exists d, Fixture.serve Fixture.books (DetailURL Fixture.attic_row)
               = Some d
               /\ Category Fixture.attic_row = category_of d.
Proof.
  pose proof (@category_is_third_breadcrumb Fixture.plain_runtime
                (Fixture.serve Fixture.books)) as (Hpos & _ & Hrow).
  split; [|split].
  - apply (proj1 (Hpos Fixture.attic_page)). simpl. lia.
  - apply (proj2 (Hpos Fixture.wake_page)). simpl. lia.
  - apply (Hrow Fixture.root_url Fixture.attic_pod [Fixture.root_url]
                [Fixture.root_url; Fixture.attic_url]).
    vm_compute. reflexivity.
Defined.

(** ** C8: the crawl is a function of the site *)

Section TwoSites.
Context {runtime : Runtime}.
Variables fetch1 fetch2 : text -> option BeautifulSoup.
Hypothesis same_site : forall url, fetch1 url = fetch2 url.

Lemma scrape_card_same (url : text) (art : product_pod) (log : list text) :
  scrape_card fetch1 url art log = scrape_card fetch2 url art log.
Proof.
  unfold scrape_card, bind_crawl, lift, get_soup.
  destruct (card_fields url art) as [p|e]; [|reflexivity].
  rewrite same_site. reflexivity.
Qed.

Lemma scrape_cards_same (url : text) (arts : list product_pod)
    (rows : list row) (log : list text) :
  scrape_cards fetch1 url arts rows log = scrape_cards fetch2 url arts rows log.
Proof.
  revert rows log. induction arts as [|art arts IH]; intros rows log.
  - reflexivity.
  - cbn [scrape_cards]. unfold bind_crawl. rewrite scrape_card_same.
    destruct (scrape_card fetch2 url art log) as [log1 [r|e]];
      [apply IH | reflexivity].
Qed.

Lemma scrape_loop_same (fuel : nat) (url : text) (rows : list row)
    (log : list text) :
  scrape_loop fetch1 fuel url rows log = scrape_loop fetch2 fuel url rows log.
Proof.
  revert url rows log. induction fuel as [|fuel IH]; intros url rows log.
  - reflexivity.
  - rewrite !scrape_loop_S, same_site.
    destruct (fetch2 url) as [soup|]; [|reflexivity].
    rewrite scrape_cards_same.
    destruct (scrape_cards _ _ _ _ _) as [log2 [rows'|e]]; [|reflexivity].
    destruct (next_a soup) as [next|]; [|reflexivity].
    destruct (urljoin url _) as [url'|e]; [apply IH | reflexivity].
Qed.

End TwoSites.

(** C8.  The rows of a crawl that returns are decided by the site, in
    contents and in order: they are the rows of the cards of the list pages of
    the walk from the start URL, page by page and card by card.  A second run
    against a site that serves the same document for every URL, given at
    least as many rounds, ends as well, with the same rows in the same order
    after the same requests, whatever was requested before it started; and any
    run against such a site that ends at all ends in this way. *)
Theorem crawl_deterministic `{Runtime}
    (fetch1 fetch2 : text -> option BeautifulSoup) (fuel1 : nat)
    (start_url : text) (log1 : list text) (rows1 : list row) :
  (forall url, fetch1 url = fetch2 url) ->
  scrape_books fetch1 fuel1 start_url = (log1, Some (Ok rows1)) ->
  walked fetch1 (card_row fetch1) start_url rows1 log1
  /\ (forall fuel2 before,
        (fuel1 <= fuel2)%nat ->
        scrape_loop fetch2 fuel2 start_url [] before
        = (before ++ log1, Some (Ok rows1)))
  /\ (forall fuel2 log2 x2,
        scrape_books fetch2 fuel2 start_url = (log2, Some x2) ->
        x2 = Ok rows1 /\ log2 = log1)
  /\ (forall rows2 log2,
        walked fetch2 (card_row fetch2) start_url rows2 log2 ->
        rows2 = rows1 /\ log2 = log1).
Proof.
  unfold scrape_books. intros Hsame E1.
  assert (E2 : scrape_loop fetch2 fuel1 start_url [] [] = (log1, Some (Ok rows1))).
  { rewrite <- (scrape_loop_same fetch1 fetch2 Hsame). exact E1. }
  destruct (scrape_loop_walked fetch1 _ _ _ _ _ _ E1)
    as (new1 & ext1 & Hrows1 & Hlog1 & Hwalk1 & _).
  destruct (scrape_loop_walked fetch2 _ _ _ _ _ _ E2)
    as (new2 & ext2 & Hrows2 & Hlog2 & Hwalk2 & Hrun2).
  cbn [app] in Hrows1, Hlog1, Hrows2, Hlog2. subst new1 ext1 new2 ext2.
  split; [exact Hwalk1|]. split; [|split].
  - intros fuel2 before Hle.
    apply (scrape_loop_more_fuel fetch2 fuel1 fuel2); [|exact Hle].
    apply Hrun2.
  - intros fuel2 log2 x2 E.
    apply (scrape_loop_more_fuel fetch2 fuel1 (Nat.max fuel1 fuel2)) in E2;
      [|lia].
    apply (scrape_loop_more_fuel fetch2 fuel2 (Nat.max fuel1 fuel2)) in E;
      [|lia].
    rewrite E2 in E. injection E as <- <-. split; reflexivity.
  - intros rows2 log2 Hwalk.
    destruct (walked_functional fetch2 _ _ _ _ _ Hwalk2 Hwalk) as [-> ->].
    split; reflexivity.
Qed.

(** A second run over the fixture site, with room for nine rounds and after
    two other requests, repeats the first. *)
Lemma crawl_deterministic_on_fixture :
  @scrape_loop Fixture.plain_runtime
     (fun url => Fixture.serve Fixture.books url) 9 Fixture.root_url []
     [Fixture.page2_url; Fixture.wake_url]
  = ([Fixture.page2_url; Fixture.wake_url]
       ++ [Fixture.root_url; Fixture.attic_url; Fixture.page2_url;
           Fixture.wake_url],
     Some (Ok [Fixture.attic_row; Fixture.wake_row])).
Proof.
  refine (proj1 (proj2 (@crawl_deterministic Fixture.plain_runtime
            (Fixture.serve Fixture.books)
            (fun url => Fixture.serve Fixture.books url) 2
            Fixture.root_url
            [Fixture.root_url; Fixture.attic_url; Fixture.page2_url;
             Fixture.wake_url]
            [Fixture.attic_row; Fixture.wake_row] _ _))
          9%nat [Fixture.page2_url; Fixture.wake_url] _).
  - intros url. reflexivity.
  - vm_compute. reflexivity.
  - lia.
Defined.

(** ** C9: the walk ends when the pagination does *)

Lemma requests_of_app (url : text) (log ext : list text) :
  requests_of url (log ++ ext)
  = (requests_of url log + requests_of url ext)%nat.
Proof. unfold requests_of. rewrite filter_app, length_app. reflexivity. Qed.

Lemma requests_of_self (url : text) : requests_of url [url] = 1%nat.
Proof. unfold requests_of. simpl. rewrite eqb_text_refl. reflexivity. Qed.

Lemma urljoin_empty `{Runtime} (base : text) : urljoin base [] = Ok base.
Proof. unfold urljoin. destruct base; reflexivity. Qed.

(** C9.  When the pagination from a URL ends after [n] next links, the walk
    from that URL ends within [n + 1] rounds; and a walk that returns rows has
    found the pagination to end.  Without that it need not end: on a list page
    whose next link resolves to the page's own URL, and whose cards have their
    rows, the walk does not end in any number of rounds and requests the page
    in every round.  A next link with an empty [href] is such a link. *)
Theorem walk_ends_when_pagination_ends `{Runtime}
    (fetch : text -> option BeautifulSoup) :
  (forall n url,
      last_page_after fetch n url ->
      forall fuel rows log, (n < fuel)%nat ->
        exists log' x, scrape_loop fetch fuel url rows log = (log', Some x))
  /\ (forall fuel url rows log log' rows',
        scrape_loop fetch fuel url rows log = (log', Some (Ok rows')) ->
        exists n, (n < fuel)%nat /\ last_page_after fetch n url)
  /\ (forall url soup next,
        fetch url = Some soup -> next_a soup = Some next ->
        urljoin url (get next (str "href") []) = Ok url ->
        (forall rows log, exists log' rows',
            scrape_cards fetch url (product_pods soup) rows log
            = (log', Ok rows')) ->
        forall fuel rows log,
          snd (scrape_loop fetch fuel url rows log) = None
          /\ (fuel + requests_of url log
              <= requests_of url
                   (fst (scrape_loop fetch fuel url rows log)))%nat)
  /\ (forall url next,
        get next (str "href") [] = [] ->
        urljoin url (get next (str "href") []) = Ok url).
Proof.
  split; [|split; [|split]].
  - intros n url Hlast.
    induction Hlast as [url soup Ef En | n url soup next url' Ef En Eu _ IH];
      intros fuel rows log Hlt;
      (destruct fuel as [|fuel]; [lia|]);
      rewrite scrape_loop_S, Ef;
      destruct (scrape_cards _ _ _ _ _) as [log2 [rows'|e]]; eauto;
      rewrite En; eauto.
    rewrite Eu. apply IH. lia.
  - intros fuel. induction fuel as [|fuel IH]; intros url rows log log' rows'.
    + cbn [scrape_loop]. congruence.
    + rewrite scrape_loop_S.
      destruct (fetch url) as [soup|] eqn:Ef; [|congruence].
      destruct (scrape_cards _ _ _ _ _) as [log2 [rows1|e]]; [|congruence].
      destruct (next_a soup) as [next|] eqn:En.
      * destruct (urljoin url _) as [url'|e] eqn:Eu; [|congruence].
        intros E. apply IH in E as (n & Hlt & Hlast).
        exists (S n). split; [lia|].
        exact (last_later fetch n url soup next url' Ef En Eu Hlast).
      * intros _. exists O. split; [lia|].
        exact (last_here fetch url soup Ef En).
  - intros url soup next Ef En Eu Hcards fuel.
    induction fuel as [|fuel IH]; intros rows log.
    + cbn [scrape_loop fst snd]. split; [reflexivity | simpl; lia].
    + rewrite scrape_loop_S, Ef.
      destruct (Hcards rows (log ++ [url])) as (log' & rows' & Ec).
      rewrite Ec, En, Eu.
      destruct (IH rows' log') as [Hnone Hcount].
      split; [exact Hnone|].
      apply scrape_cards_log in Ec as (ext & -> & _).
      rewrite !requests_of_app, requests_of_self in Hcount. lia.
  - intros url next ->. apply urljoin_empty.
Qed.

(** The fixture site ends after one next link; the site whose next link has an
    empty [href] keeps the walk on its one page. *)
Lemma walk_ends_on_fixture :
  (exists log' x,
      @scrape_loop Fixture.plain_runtime (Fixture.serve Fixture.books) 2
         Fixture.root_url [] [] = (log', Some x))
  /\ (snd (@scrape_loop Fixture.plain_runtime (Fixture.serve Fixture.looping)
             50 Fixture.root_url [] []) = None
      /\ (50 + requests_of Fixture.root_url []
          <= requests_of Fixture.root_url
               (fst (@scrape_loop Fixture.plain_runtime
                       (Fixture.serve Fixture.looping) 50 Fixture.root_url
                       [] [])))%nat).
Proof.
  split.
  - apply (proj1 (@walk_ends_when_pagination_ends Fixture.plain_runtime
                    (Fixture.serve Fixture.books)) 1%nat Fixture.root_url);
      [|lia].
    apply (@last_later Fixture.plain_runtime _ O Fixture.root_url
             Fixture.root_page
             (mkTag [(str "href", str "catalogue/page-2.html")])
             Fixture.page2_url); try (vm_compute; reflexivity).
    apply (@last_here Fixture.plain_runtime _ Fixture.page2_url Fixture.page2);
      vm_compute; reflexivity.
  - apply (proj1 (proj2 (proj2 (@walk_ends_when_pagination_ends
                                  Fixture.plain_runtime
                                  (Fixture.serve Fixture.looping))))
             Fixture.root_url
             (mkSoup [] (Some (mkTag [(str "href", [])])) None [])
             (mkTag [(str "href", [])])).
    + vm_compute. reflexivity.
    + reflexivity.
    + vm_compute. reflexivity.
    + intros rows log. exists log, rows. reflexivity.
Defined.

(** ** C10: a card without href *)



(** * Further properties of the parsers *)

Lemma mapping_get_In (c : text) (r : N) :
  mapping_get mapping c = Some r <-> In (c, r) mapping.
Proof.
  unfold mapping. cbn [mapping_get In]. split.
  - repeat match goal with
           | |- context [eqb_text c ?k] =>
               let E := fresh "E" in
               destruct (eqb_text c k) eqn:E;
               [apply eqb_text_eq in E; subst c;
                intros H; injection H as <-; tauto|]
           end.
    discriminate.
  - intros [H|[H|[H|[H|[H|[]]]]]]; injection H as <- <-; reflexivity.
Qed.

Lemma mapping_get_None (c : text) :
  mapping_get mapping c = None <-> forall r, ~ In (c, r) mapping.
Proof.
  split.
  - intros E r Hin. apply mapping_get_In in Hin. congruence.
  - intros Hnone. destruct (mapping_get mapping c) as [r|] eqn:E;
      [|reflexivity].
    apply mapping_get_In in E. destruct (Hnone r E).
Qed.

Lemma parse_rating_bounds (classes : list text) (r : N) :
  parse_rating classes = Some r -> 1 <= r <= 5.
Proof.
  induction classes as [|c classes IH]; cbn [parse_rating]; [discriminate|].
  destruct (mapping_get mapping c) as [r'|] eqn:E; [|exact IH].
  intros H; injection H as ->. apply mapping_get_In in E.
  unfold mapping in E. cbn [In] in E.
  destruct E as [H|[H|[H|[H|[H|[]]]]]]; injection H as _ <-; lia.
Qed.

(** X1.  A rating that [parse_rating] returns is one of 1 to 5, and so the
    Rating of every row of a crawl that returns is NA or one of 1 to 5. *)
Theorem rating_in_range `{Runtime} (fetch : text -> option BeautifulSoup) :
  (forall classes r, parse_rating classes = Some r -> 1 <= r <= 5)
  /\ (forall fuel start_url log rows,
        scrape_books fetch fuel start_url = (log, Some (Ok rows)) ->
        Forall (fun r => forall v, Rating r = Some v -> 1 <= v <= 5) rows).
Proof.
  split; [exact parse_rating_bounds|].
  intros fuel start_url log rows E.
  apply scrape_loop_rows in E as (new & -> & Hnew). simpl.
  apply Forall_forall. intros r Hr.
  rewrite Forall_forall in Hnew.
  destruct (Hnew r Hr) as (url & soup & art & _ & _ & p & d & Ep & _ & ->).
  apply card_fields_ok in Ep as (_ & _ & _ & classes & _ & _ & _ & _ & _ & _
                                 & _ & _ & _ & _ & Er).
  simpl. rewrite Er. apply parse_rating_bounds.
Qed.

Lemma rating_in_range_on_fixture :
  1 <= 3 <= 5
  /\ Forall (fun r => forall v, Rating r = Some v -> 1 <= v <= 5)
            [Fixture.attic_row; Fixture.wake_row].
Proof.
  pose proof (@rating_in_range Fixture.plain_runtime
                (Fixture.serve Fixture.books)) as [Hparse Hrows].
  split.
  - apply (Hparse [str "star-rating"; str "Three"]). reflexivity.
  - apply (Hrows 2%nat Fixture.root_url
                 [Fixture.root_url; Fixture.attic_url; Fixture.page2_url;
                  Fixture.wake_url]).
    vm_compute. reflexivity.
Defined.

(** X2.  [parse_rating] returns the rating of the first class that is one of
    the five rating words, whatever follows it, and NA exactly when no class
    is a rating word. *)
Theorem parse_rating_first_word :
  (forall pre c post r,
      Forall (fun k => forall r', ~ In (k, r') mapping) pre ->
      In (c, r) mapping ->
      parse_rating (pre ++ c :: post) = Some r)
  /\ (forall classes,
        parse_rating classes = None
        <-> Forall (fun k => forall r', ~ In (k, r') mapping) classes).
Proof.
  split.
  - intros pre c post r Hpre Hc.
    induction Hpre as [|k pre Hk _ IH]; cbn [parse_rating app].
    + apply mapping_get_In in Hc. rewrite Hc. reflexivity.
    + apply mapping_get_None in Hk. rewrite Hk. exact IH.
  - intros classes. induction classes as [|c classes IH]; cbn [parse_rating].
    + split; [constructor | reflexivity].
    + destruct (mapping_get mapping c) as [r|] eqn:E; split.
      * discriminate.
      * intros H. inversion H as [|? ? Hc _]; subst.
        apply mapping_get_In in E. destruct (Hc r E).
      * intros H. constructor; [apply mapping_get_None; exact E|].
        apply IH; exact H.
      * intros H. inversion H; subst. apply IH; assumption.
Qed.

Lemma parse_rating_first_word_two :
  parse_rating ([str "star-rating"] ++ str "Two" :: [str "Three"]) = Some 2.
Proof.
  apply (proj1 parse_rating_first_word).
  - constructor; [|constructor].
    apply mapping_get_None. reflexivity.
  - apply mapping_get_In. reflexivity.
Defined.

Lemma drop_while_app_all (p : char -> bool) (pre s : text) :
  Forall (fun c => p c = true) pre -> drop_while p (pre ++ s) = drop_while p s.
Proof.
  induction 1 as [|c pre Hc _ IH]; simpl; [reflexivity|].
  rewrite Hc; exact IH.
Qed.

Lemma take_while_app_head (p : char -> bool) (ds rest : text) :
  Forall (fun c => p c = true) ds -> head_free p rest ->
  take_while p (ds ++ rest) = ds.
Proof.
  intros Hds Hrest. induction Hds as [|c ds Hc _ IH]; simpl.
  - destruct rest as [|c rest]; simpl in *; [reflexivity|].
    rewrite Hrest; reflexivity.
  - rewrite Hc, IH; reflexivity.
Qed.

Lemma drop_while_nil (p : char -> bool) (s : text) :
  drop_while p s = [] -> Forall (fun c => p c = true) s.
Proof.
  induction s as [|c s IH]; simpl; [constructor|].
  destruct (p c) eqn:E; [|discriminate].
  intros H; constructor; auto.
Qed.

Lemma take_while_length (p : char -> bool) (s : text) :
  (List.length (take_while p s) <= List.length s)%nat.
Proof.
  induction s as [|c s IH]; simpl; [lia|].
  destruct (p c); simpl; lia.
Qed.

Lemma drop_while_length (p : char -> bool) (s : text) :
  (List.length (drop_while p s) <= List.length s)%nat.
Proof.
  induction s as [|c s IH]; simpl; [lia|].
  destruct (p c); simpl; lia.
Qed.

(** X3.  [parse_availability] reads the first maximal run of digits and nothing
    after it: on a text made of characters that are no digits, then a
    non-empty run of digits, then a rest that does not start with a digit, it
    returns the number the run denotes, or raises ValueError when the run has
    more digits than int() accepts. *)
Theorem parse_availability_first_run (pre ds rest : text) :
  Forall (fun c => isdecimal c = false) pre ->
  all_digits ds -> ds <> [] ->
  head_free isdecimal rest ->
  parse_availability (pre ++ ds ++ rest)
  = if (int_max_str_digits <? List.length ds)%nat then Raise ValueError
    else Ok (Some (digits_value ds)).
Proof.
  intros Hpre Hds Hne Hrest. unfold parse_availability, search_digits.
  rewrite drop_while_app_all.
  2:{ apply Forall_forall. intros c Hc. rewrite Forall_forall in Hpre.
      rewrite (Hpre c Hc). reflexivity. }
  destruct ds as [|d ds]; [congruence|].
  assert (Hd : isdecimal d = true) by (inversion Hds; assumption).
  cbn [app drop_while]. rewrite Hd. cbn [negb].
  change (d :: ds ++ rest) with ((d :: ds) ++ rest).
  rewrite (take_while_app_head isdecimal (d :: ds) rest Hds Hrest).
  unfold int, bind.
  destruct (int_max_str_digits <? List.length (d :: ds))%nat; reflexivity.
Qed.

Lemma parse_availability_first_run_22 :
  parse_availability (str "In stock (" ++ str "22" ++ str " of 30 available)")
  = Ok (Some 22).
Proof.
  apply (parse_availability_first_run (str "In stock (") (str "22")
           (str " of 30 available)")).
  - repeat constructor.
  - repeat constructor.
  - discriminate.
  - reflexivity.
Defined.

(** X4.  [parse_availability] returns NA exactly on the texts without any
    decimal digit. *)
Theorem parse_availability_NA_iff (t : text) :
  parse_availability t = Ok None <-> Forall (fun c => isdecimal c = false) t.
Proof.
  unfold parse_availability, search_digits. split.
  - destruct (drop_while _ t) as [|c rest] eqn:E.
    + intros _. apply drop_while_nil in E.
      apply Forall_forall. intros c Hc. rewrite Forall_forall in E.
      apply negb_true_iff. exact (E c Hc).
    + unfold bind. destruct (int _); discriminate.
  - intros H.
    destruct (while_all (fun c => negb (isdecimal c)) t) as [_ E].
    { apply Forall_forall. intros c Hc. rewrite Forall_forall in H.
      rewrite (H c Hc). reflexivity. }
    rewrite E. reflexivity.
Qed.

Lemma parse_availability_raises (t : text) (e : exn) :
  parse_availability t = Raise e ->
  e = ValueError /\ (int_max_str_digits < List.length t)%nat.
Proof.
  unfold parse_availability, search_digits.
  pose proof (drop_while_length (fun c => negb (isdecimal c)) t) as Hdrop.
  destruct (drop_while _ t) as [|c rest]; [discriminate|].
  pose proof (take_while_length isdecimal (c :: rest)) as Htake.
  unfold int, bind.
  destruct (int_max_str_digits <? _)%nat eqn:E; [|discriminate].
  apply Nat.ltb_lt in E. intros H; injection H as <-.
  split; [reflexivity | lia].
Qed.

(** X5.  [parse_availability] raises nothing but ValueError, and raises nothing
    at all on a text of at most 4300 characters. *)
Theorem parse_availability_raises_rarely (t : text) :
  (forall e, parse_availability t = Raise e ->
             e = ValueError /\ (int_max_str_digits < List.length t)%nat)
  /\ ((List.length t <= int_max_str_digits)%nat ->
      exists v, parse_availability t = Ok v).
Proof.
  split; [apply parse_availability_raises|].
  intros Hlen. destruct (parse_availability t) as [v|e] eqn:E; [eauto|].
  destruct (parse_availability_raises t e E) as [_ Hlt]. lia.
Qed.

Lemma parse_availability_short_text :
  exists v, parse_availability (str "In stock") = Ok v.
Proof.
  apply (proj2 (parse_availability_raises_rarely (str "In stock"))).
  apply Nat.leb_le. vm_compute. reflexivity.
Defined.

(** X6.  [parse_price] does not see the characters that are neither digits nor
    dots: one more or less of them, anywhere in the text, changes nothing.  A
    minus sign, a thousands comma or the letter of an exponent is dropped in
    this way. *)
Theorem parse_price_ignores_other_characters (s t : text) (c : char) :
  isdecimal c = false -> c <> dot ->
  parse_price (s ++ c :: t) = parse_price (s ++ t).
Proof.
  intros Hc Hdot. unfold parse_price, sub_non_numeric.
  rewrite !filter_app. cbn [filter].
  apply N.eqb_neq in Hdot. rewrite Hc, Hdot. reflexivity.
Qed.

Lemma parse_price_ignores_comma :
  parse_price (str "1" ++ 44 :: str "234.50")
  = parse_price (str "1" ++ str "234.50").
Proof.
  apply parse_price_ignores_other_characters.
  - reflexivity.
  - discriminate.
Defined.

Lemma count_app (p : char -> bool) (s t : text) :
  count p (s ++ t) = (count p s + count p t)%nat.
Proof. unfold count. rewrite filter_app, length_app. reflexivity. Qed.

Lemma count_cons (p : char -> bool) (c : char) (t : text) :
  count p (c :: t) = ((if p c then 1 else 0) + count p t)%nat.
Proof. unfold count. simpl. destruct (p c); reflexivity. Qed.

Lemma count_run (l : text) :
  all_digits l ->
  count isdecimal l = List.length l /\ count isdot l = O.
Proof.
  induction 1 as [|c l Hc _ [IH1 IH2]]; [split; reflexivity|].
  rewrite !count_cons, IH1, IH2, Hc. unfold isdot.
  destruct (c =? dot) eqn:E.
  - apply N.eqb_eq in E. subst c. rewrite isdecimal_dot in Hc. discriminate.
  - split; reflexivity.
Qed.

Lemma count_sub_non_numeric (t : text) :
  count isdecimal (sub_non_numeric t) = count isdecimal t
  /\ count isdot (sub_non_numeric t)
     = count isdot t.
Proof.
  unfold sub_non_numeric.
  induction t as [|c t [IH1 IH2]]; [split; reflexivity|].
  cbn [filter]. destruct (isdecimal c) eqn:Ed; cbn [orb].
  - rewrite !count_cons, IH1, IH2. split; reflexivity.
  - destruct (c =? dot) eqn:Ec.
    + rewrite !count_cons, IH1, IH2. split; reflexivity.
    + rewrite !count_cons, IH1, IH2, Ed. unfold isdot. rewrite Ec.
      split; reflexivity.
Qed.

Lemma float_returns_iff (s : text) :
  Forall (fun c => isdecimal c = true \/ c = dot) s ->
  (exists q, float s = Ok q)
  <-> (1 <= count isdecimal s)%nat /\ (count isdot s <= 1)%nat.
Proof.
  intros Hs. unfold float.
  pose proof (take_drop_while isdecimal s) as Es.
  pose proof (take_while_all isdecimal s) as Hip.
  pose proof (drop_while_head isdecimal s) as Hhead.
  remember (take_while isdecimal s) as ip eqn:Eip.
  remember (drop_while isdecimal s) as rest eqn:Erest.
  clear Eip Erest. subst s.
  destruct (count_run ip Hip) as [Hd1 Hd2].
  destruct rest as [|c rest].
  - rewrite app_nil_r, Hd1, Hd2.
    destruct ip as [|d ip]; simpl; split.
    + intros [q E]; discriminate.
    + lia.
    + intros _; lia.
    + intros _; eauto.
  - simpl in Hhead.
    assert (Ec : c = dot).
    { apply Forall_app in Hs as [_ Hs]. inversion Hs as [|? ? [H|H] _]; subst;
        [congruence | reflexivity]. }
    subst c. rewrite N.eqb_refl.
    pose proof (take_drop_while isdecimal rest) as Er.
    pose proof (take_while_all isdecimal rest) as Hfp.
    pose proof (drop_while_head isdecimal rest) as Hhead'.
    remember (take_while isdecimal rest) as fp eqn:Efp.
    remember (drop_while isdecimal rest) as tail eqn:Etail.
    clear Efp Etail. subst rest.
    destruct (count_run fp Hfp) as [Hf1 Hf2].
    rewrite !count_app, !count_cons, !count_app, Hd1, Hd2, Hf1, Hf2.
    assert (Edot : isdot dot = true) by reflexivity.
    rewrite isdecimal_dot, Edot.
    destruct tail as [|d tail].
    + unfold count at 1 2. simpl.
      destruct ip as [|i ip], fp as [|f fp]; simpl; split;
        try (intros [q E]; discriminate); try lia; intros _; eauto.
    + simpl in Hhead'.
      assert (Ed : d = dot).
      { apply Forall_app in Hs as [_ Hs]. inversion Hs as [|? ? _ Hs']; subst.
        apply Forall_app in Hs' as [_ Hs'].
        inversion Hs' as [|? ? [H|H] _]; subst; [congruence | reflexivity]. }
      subst d. rewrite !count_cons, Edot. split.
      * intros [q E]; discriminate.
      * lia.
Qed.

(** X7.  [parse_price] returns a number exactly on the texts that have at
    least one decimal digit and at most one dot; on all others it raises. *)
Theorem parse_price_returns_iff (t : text) :
  (exists q, parse_price t = Ok q)
  <-> (1 <= count isdecimal t)%nat /\ (count isdot t <= 1)%nat.
Proof.
  unfold parse_price.
  rewrite (float_returns_iff _ (sub_non_numeric_chars t)).
  destruct (count_sub_non_numeric t) as [-> ->]. reflexivity.
Qed.

(** * A further property of the title *)

Lemma rev_all (p : char -> bool) (l : text) :
  Forall (fun c => p c = true) l -> Forall (fun c => p c = true) (rev l).
Proof. intros H. apply Forall_rev. exact H. Qed.

(** X8.  [strip] removes whitespace from the two ends of a text and nothing
    else: the text is a run of whitespace, then the stripped text, then a run
    of whitespace, and the stripped text neither starts nor ends with
    whitespace.  The Title of a row is the title attribute without the blanks
    around it. *)
Theorem strip_removes_outer_whitespace (s : text) :
  exists l r,
    s = l ++ strip s ++ r
    /\ Forall (fun c => isspace c = true) l
    /\ Forall (fun c => isspace c = true) r
    /\ head_free isspace (strip s)
    /\ head_free isspace (rev (strip s)).
Proof.
  destruct (strip_head_free s) as [H1 H2].
  unfold strip in *.
  pose proof (take_drop_while isspace s) as Es.
  pose proof (take_while_all isspace s) as Hl.
  set (m := drop_while isspace s) in *.
  pose proof (take_drop_while isspace (rev m)) as Em.
  pose proof (take_while_all isspace (rev m)) as Hr.
  exists (take_while isspace s), (rev (take_while isspace (rev m))).
  repeat split; try assumption.
  - rewrite <- rev_app_distr, Em, rev_involutive. symmetry; exact Es.
  - apply rev_all; exact Hr.
Qed.

(** * Further properties of the crawl *)

Ltac crack H :=
  repeat match type of H with
         | context [match ?x with Ok _ => _ | Raise _ => _ end] => destruct x
         | context [if ?x then _ else _] => destruct x
         | context [match ?x with Some _ => _ | None => _ end] => destruct x
         | context [let (_, _) := ?x in _] => destruct x
         | context [match ?x with [] => _ | _ :: _ => _ end] => destruct x
         | context [match ?x with O => _ | S _ => _ end] => destruct x
         | context [match ?x with N0 => _ | Npos _ => _ end] => destruct x
         | context [match ?x with xI _ => _ | xO _ => _ | xH => _ end] =>
             destruct x
         | context [match ?x with IPv4 => _ | IPv6 => _ end] => destruct x
         end.

Section Exceptions.
Context {runtime : Runtime}.

Lemma check_bracketed_netloc_raises (netloc : text) (e : exn) :
  check_bracketed_netloc netloc = Raise e -> e = ValueError.
Proof.
  unfold check_bracketed_netloc, check_bracketed_host. intros H.
  crack H; congruence.
Qed.

Lemma checknetloc_raises (netloc : text) (e : exn) :
  checknetloc netloc = Raise e -> e = ValueError.
Proof. unfold checknetloc. intros H. crack H; congruence. Qed.

Lemma urlsplit_raises (url scheme0 : text) (e : exn) :
  urlsplit url scheme0 = Raise e -> e = ValueError.
Proof.
  unfold urlsplit, bind.
  generalize (remove_unsafe (drop_while c0_control_or_space url)).
  intros url1.
  set (sc := remove_unsafe _).
  destruct (match find_char colon url1, url1 with
            | Some (S i), c :: _ =>
                if (ascii_lower c || ascii_upper c)
                   && forallb scheme_char (firstn (S i) url1)
                then (lower (firstn (S i) url1), skipn (S (S i)) url1)
                else (sc, url1)
            | _, _ => (sc, url1)
            end) as [scheme1 url2].
  intros H.
  pose proof check_bracketed_netloc_raises as Hb.
  pose proof checknetloc_raises as Hc.
  repeat match type of H with
         | context [check_bracketed_netloc ?n] =>
             let E := fresh "E" in
             destruct (check_bracketed_netloc n) eqn:E;
             [|apply Hb in E]
         | context [checknetloc ?n] =>
             let E := fresh "E" in
             destruct (checknetloc n) eqn:E; [|apply Hc in E]
         | context [let (_, _) := ?x in _] => destruct x
         | context [if ?x then _ else _] => destruct x
         | context [match ?x with [] => _ | _ :: _ => _ end] => destruct x
         | context [match ?x with N0 => _ | Npos _ => _ end] => destruct x
         | context [match ?x with xI _ => _ | xO _ => _ | xH => _ end] =>
             destruct x
         end; congruence.
Qed.

Lemma urljoin_raises (base url : text) (e : exn) :
  urljoin base url = Raise e -> e = ValueError.
Proof.
  unfold urljoin, urlparse, bind. intros H.
  destruct (is_empty base); [discriminate|].
  destruct (is_empty url); [discriminate|].
  destruct (urlsplit base []) as [sb|eb] eqn:Eb;
    [|apply urlsplit_raises in Eb; congruence].
  cbv beta iota in H.
  destruct (if mem (s_scheme sb) uses_params
               && contains semicolon (s_path sb)
            then splitparams (s_path sb) else (s_path sb, []))
    as [bpath bparams].
  cbv beta iota in H. cbn [scheme] in H.
  destruct (urlsplit url (s_scheme sb)) as [su|eu] eqn:Eu;
    [|apply urlsplit_raises in Eu; congruence].
  cbv beta iota in H.
  destruct (if mem (s_scheme su) uses_params
               && contains semicolon (s_path su)
            then splitparams (s_path su) else (s_path su, []))
    as [upath uparams].
  cbv beta iota in H.
  crack H; discriminate.
Qed.

(** The fields of a card raise the exceptions of lines 88-95, and those are no
    request failures. *)
Lemma card_fields_raises (url : text) (art : product_pod) (e : exn) :
  card_fields url art = Raise e -> e <> RequestException.
Proof.
  unfold card_fields, bind, attribute_of, subscript_of.
  destruct (h3 art) as [heading|]; [|congruence].
  destruct (a heading) as [anchor|]; [|congruence].
  destruct (urljoin url _) as [detail_url|e1] eqn:Eurl;
    [|apply urljoin_raises in Eurl; congruence].
  destruct (price_color art) as [price_text|]; [|congruence].
  destruct (parse_price price_text) as [price|e1] eqn:Eprice;
    [|apply float_raises in Eprice; congruence].
  destruct (star_rating art) as [classes|]; [|congruence].
  destruct (instock_availability art) as [availability_text|]; [|congruence].
  destruct (parse_availability availability_text) as [availability|e1] eqn:Eav;
    [congruence|].
  apply parse_availability_raises in Eav as [-> _]. congruence.
Qed.

End Exceptions.

Section Walk.
Context {runtime : Runtime}.
Variable fetch : text -> option BeautifulSoup.

Lemma scrape_card_resumed (url : text) (art : product_pod) (log : list text) :
  scrape_card fetch url art log
  = (log ++ fst (scrape_card fetch url art []),
     snd (scrape_card fetch url art [])).
Proof.
  unfold scrape_card, bind_crawl, lift, get_soup, ret.
  destruct (card_fields url art) as [p|e]; cbn [fst snd].
  - destruct (fetch (p_detail_url p)); reflexivity.
  - rewrite app_nil_r. reflexivity.
Qed.

Lemma result_map_app (rows rows1 : list row) (x : result (list row)) :
  result_map (app rows) (result_map (app rows1) x)
  = result_map (app (rows ++ rows1)) x.
Proof. destruct x; simpl; [rewrite app_assoc|]; reflexivity. Qed.

Lemma scrape_cards_resumed (url : text) (arts : list product_pod)
    (rows : list row) (log : list text) :
  scrape_cards fetch url arts rows log
  = (log ++ fst (scrape_cards fetch url arts [] []),
     result_map (app rows) (snd (scrape_cards fetch url arts [] []))).
Proof.
  revert rows log. induction arts as [|art arts IH]; intros rows log.
  - cbn. rewrite !app_nil_r. reflexivity.
  - cbn [scrape_cards]. unfold bind_crawl.
    rewrite (scrape_card_resumed url art log).
    destruct (scrape_card fetch url art []) as [l1 [r|e]]; cbn [fst snd].
    + change ([] ++ [r]) with [r].
      rewrite (IH (rows ++ [r]) (log ++ l1)), (IH [r] l1).
      cbn [fst snd]. rewrite result_map_app, app_assoc. reflexivity.
    + reflexivity.
Qed.

Lemma scrape_loop_resumed (fuel : nat) (url : text) (rows : list row)
    (log : list text) :
  scrape_loop fetch fuel url rows log
  = resumed rows log (scrape_loop fetch fuel url [] []).
Proof.
  unfold resumed. revert url rows log.
  induction fuel as [|fuel IH]; intros url rows log.
  - cbn. rewrite app_nil_r. reflexivity.
  - rewrite !scrape_loop_S.
    destruct (fetch url) as [soup|]; [|reflexivity].
    change ([] ++ [url]) with [url].
    rewrite (scrape_cards_resumed url _ rows (log ++ [url])).
    rewrite (scrape_cards_resumed url _ [] [url]).
    destruct (scrape_cards fetch url (product_pods soup) [] [])
      as [l1 [rows1|e]]; cbn [fst snd result_map].
    + change ([] ++ rows1) with rows1.
      destruct (next_a soup) as [next|].
      * destruct (urljoin url _) as [url'|e].
        -- rewrite (IH url' (rows ++ rows1)), (IH url' rows1).
           cbn [fst snd]. rewrite <- !app_assoc. f_equal.
           destruct (snd (scrape_loop fetch fuel url' [] [])) as [x|];
             cbn [option_map]; [|reflexivity].
           rewrite result_map_app. reflexivity.
        -- cbn. rewrite <- app_assoc. reflexivity.
      * cbn. rewrite <- app_assoc. reflexivity.
    + cbn. rewrite <- app_assoc. reflexivity.
Qed.

Lemma stops_at_failure_app {A} (ext1 ext2 : list text)
    (x : option (result A)) :
  Forall (fun v => fetch v <> None) ext1 ->
  stops_at_failure fetch ext2 x ->
  stops_at_failure fetch (ext1 ++ ext2) x.
Proof.
  intros H1. unfold stops_at_failure.
  destruct x as [[r|[]]|]; try (intros H2; apply Forall_app; split; assumption).
  intros (pre & u & -> & Hpre & Hu).
  exists (ext1 ++ pre), u. rewrite app_assoc. repeat split; [|exact Hu].
  apply Forall_app; split; assumption.
Qed.

Lemma scrape_card_stops (url : text) (art : product_pod) :
  stops_at_failure fetch (fst (scrape_card fetch url art []))
                   (Some (snd (scrape_card fetch url art []))).
Proof.
  unfold scrape_card, bind_crawl, lift, get_soup, ret.
  destruct (card_fields url art) as [p|e] eqn:Ep; cbn [fst snd].
  - destruct (fetch (p_detail_url p)) eqn:Ed; cbn.
    + constructor; [congruence | constructor].
    + exists [], (p_detail_url p). repeat split; [constructor | exact Ed].
  - apply card_fields_raises in Ep. destruct e; cbn; try constructor.
    congruence.
Qed.

Lemma scrape_cards_stops (url : text) (arts : list product_pod) :
  stops_at_failure fetch (fst (scrape_cards fetch url arts [] []))
                   (Some (snd (scrape_cards fetch url arts [] []))).
Proof.
  induction arts as [|art arts IH].
  - cbn. constructor.
  - cbn [scrape_cards]. unfold bind_crawl.
    pose proof (scrape_card_stops url art) as Hcard.
    destruct (scrape_card fetch url art []) as [l1 [r|e]]; cbn [fst snd] in *.
    + rewrite scrape_cards_resumed. cbn [fst snd].
      apply stops_at_failure_app; [exact Hcard|].
      destruct (snd (scrape_cards fetch url arts [] [])) as [rows|[]];
        exact IH.
    + exact Hcard.
Qed.

End Walk.

(** X9.  What the loop does from a URL does not depend on what it holds: with
    rows and requests accumulated, a run is the run of a fresh walk from that
    URL with the rows and the requests put in front.  Rows gathered are never
    dropped, changed or reordered. *)
Theorem walk_resumes `{Runtime} (fetch : text -> option BeautifulSoup)
    (fuel : nat) (url : text) (rows : list row) (log : list text) :
  scrape_loop fetch fuel url rows log
  = resumed rows log (scrape_books fetch fuel url)
  /\ (exists ext, fst (scrape_loop fetch fuel url rows log) = log ++ ext)
  /\ (forall rows',
        snd (scrape_loop fetch fuel url rows log) = Some (Ok rows') ->
        exists new, rows' = rows ++ new).
Proof.
  unfold scrape_books. rewrite (scrape_loop_resumed fetch fuel url rows log).
  unfold resumed. cbn [fst snd]. split; [reflexivity|]. split.
  - eexists. reflexivity.
  - intros rows'.
    destruct (snd (scrape_loop fetch fuel url [] [])) as [[new|e]|];
      cbn [option_map result_map]; try discriminate.
    intros E. injection E as <-. exists new. reflexivity.
Qed.

Lemma walk_resumes_on_fixture :
  exists new,
    [Fixture.attic_row; Fixture.wake_row] = [Fixture.attic_row] ++ new.
Proof.
  apply (proj2 (proj2 (@walk_resumes Fixture.plain_runtime
                         (Fixture.serve Fixture.books) 1 Fixture.page2_url
                         [Fixture.attic_row]
                         [Fixture.root_url; Fixture.attic_url]))).
  vm_compute. reflexivity.
Defined.

(** X10.  The crawl stops at the first request that fails: in every run all
    requested pages were served, except that a run which raised
    RequestException ends its requests with the one page that was not. *)
Theorem requests_stop_at_first_failure {runtime : Runtime}
    (fetch : text -> option BeautifulSoup) (fuel : nat) (start_url : text) :
  stops_at_failure fetch (fst (scrape_books fetch fuel start_url))
                   (snd (scrape_books fetch fuel start_url)).
Proof.
  unfold scrape_books. rename start_url into url.
  revert url. induction fuel as [|fuel IH]; intros url.
  - cbn. constructor.
  - rewrite scrape_loop_S.
    destruct (fetch url) as [soup|] eqn:Ef.
    + assert (Hurl : Forall (fun v => fetch v <> None) [url]).
      { constructor; [congruence | constructor]. }
      rewrite scrape_cards_resumed.
      pose proof (scrape_cards_stops fetch url (product_pods soup)) as Hcards.
      destruct (scrape_cards fetch url (product_pods soup) [] [])
        as [l1 [rows1|e]]; cbn [fst snd result_map] in *.
      * assert (Hl1 : Forall (fun v => fetch v <> None) (([] ++ [url]) ++ l1)).
        { apply Forall_app; split; assumption. }
        destruct (next_a soup) as [next|]; [|exact Hl1].
        destruct (urljoin url _) as [url'|e] eqn:Eu.
        -- rewrite scrape_loop_resumed. unfold resumed. cbn [fst snd].
           apply stops_at_failure_app; [exact Hl1|].
           specialize (IH url').
           destruct (snd (scrape_loop fetch fuel url' [] [])) as [[r|[]]|];
             exact IH.
        -- apply urljoin_raises in Eu. subst e. exact Hl1.
      * cbn [fst snd]. apply stops_at_failure_app; assumption.
    + cbn. exists [], url. repeat split; [constructor | exact Ef].
Qed.

(** X11.  A crawl that returns has made one request per list page and one per
    row, and nothing else: if its pagination ended after [n] next links, the
    requests number [n + 1] plus the number of rows, and the detail URL of
    every row is among them. *)
Theorem one_request_per_page_and_row {runtime : Runtime}
    (fetch : text -> option BeautifulSoup) (fuel : nat) (start_url : text)
    (log : list text) (rows : list row) :
  scrape_books fetch fuel start_url = (log, Some (Ok rows)) ->
  exists n,
    last_page_after fetch n start_url
    /\ List.length log = (S n + List.length rows)%nat
    /\ Forall (fun r => In (DetailURL r) log) rows.
Proof.
  unfold scrape_books. rename start_url into url.
  revert url log rows. induction fuel as [|fuel IH]; intros url log rows.
  - cbn [scrape_loop]. congruence.
  - rewrite scrape_loop_S.
    destruct (fetch url) as [soup|] eqn:Ef; [|congruence].
    destruct (scrape_cards _ _ _ _ _) as [log2 [rows1|e]] eqn:Ec;
      [|congruence].
    apply scrape_cards_ok in Ec as (new & _ & -> & ->).
    cbn [app].
    assert (Hnew : Forall (fun r => In (DetailURL r)
                                       (url :: map DetailURL new)) new).
    { apply Forall_forall. intros r Hr. right. apply in_map. exact Hr. }
    destruct (next_a soup) as [next|] eqn:En.
    + destruct (urljoin url _) as [url'|e] eqn:Eu; [|congruence].
      rewrite scrape_loop_resumed. unfold resumed.
      destruct (scrape_loop fetch fuel url' [] []) as [log3 [[rows3|e]|]] eqn:E;
        cbn [fst snd option_map result_map]; try congruence.
      intros H; injection H as <- <-.
      destruct (IH url' log3 rows3 E) as (n & Hlast & Hlen & Hin).
      exists (S n). split; [|split].
      * exact (last_later fetch n url soup next url' Ef En Eu Hlast).
      * cbn [app]. rewrite !length_app. cbn [List.length].
        rewrite length_app, length_map. lia.
      * apply Forall_app; split.
        -- eapply Forall_impl; [|exact Hnew].
           intros r Hr.
           apply (in_or_app (url :: map DetailURL new) log3 (DetailURL r)).
           left. exact Hr.
        -- eapply Forall_impl; [|exact Hin].
           intros r Hr.
           apply (in_or_app (url :: map DetailURL new) log3 (DetailURL r)).
           right. exact Hr.
    + intros H; injection H as <- <-.
      exists O. split; [|split].
      * exact (last_here fetch url soup Ef En).
      * cbn [List.length]. rewrite length_map. lia.
      * exact Hnew.
Qed.

Lemma one_request_per_page_and_row_on_fixture :
  exists n,
    @last_page_after Fixture.plain_runtime (Fixture.serve Fixture.books) n
       Fixture.root_url
    /\ List.length [Fixture.root_url; Fixture.attic_url; Fixture.page2_url;
                    Fixture.wake_url]
       = (S n + List.length [Fixture.attic_row; Fixture.wake_row])%nat
    /\ Forall (fun r => In (DetailURL r)
                           [Fixture.root_url; Fixture.attic_url;
                            Fixture.page2_url; Fixture.wake_url])
              [Fixture.attic_row; Fixture.wake_row].
Proof.
  apply (@one_request_per_page_and_row Fixture.plain_runtime
           (Fixture.serve Fixture.books) 3 Fixture.root_url).
  vm_compute. reflexivity.
Defined.

(** X12.  Nothing is remembered between cards: when the cards of a page are
    listed twice, each gets its row twice and its detail page is requested
    twice. *)
Theorem repeated_cards_repeated_rows `{Runtime}
    (fetch : text -> option BeautifulSoup) (url : text)
    (arts : list product_pod) (new rows : list row) (log : list text) :
  Forall2 (card_row fetch url) arts new ->
  scrape_cards fetch url (arts ++ arts) rows log
  = (log ++ map DetailURL new ++ map DetailURL new, Ok (rows ++ new ++ new)).
Proof.
  intros Hnew. apply scrape_cards_ok. exists (new ++ new).
  rewrite map_app. repeat split. apply Forall2_app; exact Hnew.
Qed.

Lemma repeated_cards_on_fixture :
  @scrape_cards Fixture.plain_runtime (Fixture.serve Fixture.books)
     Fixture.root_url ([Fixture.attic_pod] ++ [Fixture.attic_pod]) []
     [Fixture.root_url]
  = ([Fixture.root_url] ++ map DetailURL [Fixture.attic_row]
       ++ map DetailURL [Fixture.attic_row],
     Ok ([] ++ [Fixture.attic_row] ++ [Fixture.attic_row])).
Proof.
  apply (@repeated_cards_repeated_rows Fixture.plain_runtime).
  constructor; [|constructor].
  exists (mkPartial (str "A Light in the Attic") (nearest_binary64 51.77) (Some 3) None
                    Fixture.attic_url), Fixture.attic_page.
  vm_compute. repeat split.
Defined.

(** X13.  A card that cannot be completed ends the crawl on the spot.  When the
    cards before it have their rows and its own fields raise, the crawl raises
    that exception having requested the list page and the detail pages of the
    cards before, and no page for the card itself; when its fields are sound
    and its detail page is not served, the crawl raises RequestException right
    after requesting that page.  In both cases the cards after it and the next
    list page are never looked at. *)
Theorem failing_card_ends_crawl `{Runtime}
    (fetch : text -> option BeautifulSoup) (fuel : nat) (url : text)
    (soup : BeautifulSoup) (pre post : list product_pod) (art : product_pod)
    (new rows : list row) (log : list text) :
  fetch url = Some soup ->
  product_pods soup = pre ++ art :: post ->
  Forall2 (card_row fetch url) pre new ->
  (forall e,
      card_fields url art = Raise e ->
      scrape_loop fetch (S fuel) url rows log
      = (log ++ url :: map DetailURL new, Some (Raise e)))
  /\ (forall p,
        card_fields url art = Ok p -> fetch (p_detail_url p) = None ->
        scrape_loop fetch (S fuel) url rows log
        = (log ++ url :: map DetailURL new ++ [p_detail_url p],
           Some (Raise RequestException))).
Proof.
  intros Ef Epods Hnew.
  assert (Hpre : scrape_cards fetch url pre rows (log ++ [url])
                 = ((log ++ [url]) ++ map DetailURL new, Ok (rows ++ new))).
  { apply scrape_cards_ok. exists new. repeat split. exact Hnew. }
  split.
  - intros e Ee. rewrite scrape_loop_S, Ef, Epods.
    rewrite (scrape_cards_raise fetch url pre post art rows (rows ++ new)
               (log ++ [url]) _ _ e Hpre
               (scrape_card_fields_raise fetch url art _ e Ee)).
    rewrite <- app_assoc. reflexivity.
  - intros p Ep Ed. rewrite scrape_loop_S, Ef, Epods.
    rewrite (scrape_cards_raise fetch url pre post art rows (rows ++ new)
               (log ++ [url])
               ((log ++ [url]) ++ map DetailURL new)
               (((log ++ [url]) ++ map DetailURL new) ++ [p_detail_url p])
               RequestException Hpre).
    + rewrite <- !app_assoc. reflexivity.
    + unfold scrape_card, bind_crawl, lift, get_soup. rewrite Ep, Ed.
      reflexivity.
Qed.

Lemma failing_card_on_fixture :
  @scrape_loop Fixture.plain_runtime (Fixture.serve Fixture.unpriced) 4
     Fixture.root_url [] []
  = ([] ++ Fixture.root_url :: map DetailURL [Fixture.attic_row],
     Some (Raise AttributeError))
  /\ @scrape_loop Fixture.plain_runtime (Fixture.serve Carousel.broken) 1
       Fixture.page2_url [Fixture.attic_row]
       [Fixture.root_url; Fixture.attic_url]
     = ([Fixture.root_url; Fixture.attic_url]
          ++ Fixture.page2_url :: map DetailURL [] ++ [Fixture.wake_url],
        Some (Raise RequestException)).
Proof.
  split.
  - refine (proj1 (@failing_card_ends_crawl Fixture.plain_runtime
                     (Fixture.serve Fixture.unpriced) 3 Fixture.root_url
                     (mkSoup [Fixture.attic_pod; Fixture.unpriced_pod]
                             None None [])
                     [Fixture.attic_pod] [] Fixture.unpriced_pod
                     [Fixture.attic_row] [] [] eq_refl eq_refl _)
                  AttributeError _).
    + constructor; [|constructor].
      exists (mkPartial (str "A Light in the Attic") (nearest_binary64 51.77) (Some 3) None
                        Fixture.attic_url), Fixture.attic_page.
      vm_compute. repeat split.
    + vm_compute. reflexivity.
  - apply (proj2 (@failing_card_ends_crawl Fixture.plain_runtime
                    (Fixture.serve Carousel.broken) 0 Fixture.page2_url
                    Fixture.page2 [] [] Fixture.wake_pod
                    [] [Fixture.attic_row]
                    [Fixture.root_url; Fixture.attic_url] eq_refl eq_refl
                    (Forall2_nil _))
             (mkPartial [] (nearest_binary64 12.84) (Some 1) (Some 22) Fixture.wake_url));
      vm_compute; reflexivity.
Defined.

(** X14.  Which exception a defective card raises: with a resolvable link in
    its heading, a card without price node raises AttributeError, one whose
    price text is no numeral ValueError, one with a sound price and no rating
    node TypeError, and one with price and rating node and no availability
    node AttributeError; the defect that comes first in this order decides.
    The fields of a card never raise anything else. *)
Theorem card_exception_order `{Runtime} (url : text) (art : product_pod)
    (heading : Heading) (anchor : Tag) (detail_url : text) :
  h3 art = Some heading -> a heading = Some anchor ->
  urljoin url (get anchor (str "href") []) = Ok detail_url ->
  (price_color art = None -> card_fields url art = Raise AttributeError)
  /\ (forall price_text e,
        price_color art = Some price_text ->
        parse_price price_text = Raise e ->
        card_fields url art = Raise ValueError)
  /\ (forall price_text price,
        price_color art = Some price_text ->
        parse_price price_text = Ok price ->
        star_rating art = None ->
        card_fields url art = Raise TypeError)
  /\ (forall price_text price classes,
        price_color art = Some price_text ->
        parse_price price_text = Ok price ->
        star_rating art = Some classes ->
        instock_availability art = None ->
        card_fields url art = Raise AttributeError)
  /\ (forall e,
        card_fields url art = Raise e ->
        e = AttributeError \/ e = TypeError \/ e = ValueError).
Proof.
  intros Eh Ea Eu. unfold card_fields, bind, attribute_of, subscript_of.
  rewrite Eh, Ea, Eu. repeat split.
  - intros ->. reflexivity.
  - intros price_text e -> E. rewrite E.
    apply float_raises in E. subst e. reflexivity.
  - intros price_text price -> -> ->. reflexivity.
  - intros price_text price classes -> -> -> ->. reflexivity.
  - intros e.
    destruct (price_color art) as [price_text|]; [|intros E; injection E; auto].
    destruct (parse_price price_text) as [price|e1] eqn:Eprice.
    + destruct (star_rating art) as [classes|];
        [|intros E; injection E; auto].
      destruct (instock_availability art) as [availability_text|];
        [|intros E; injection E; auto].
      destruct (parse_availability availability_text) as [v|e1] eqn:Eav;
        [discriminate|].
      apply parse_availability_raises in Eav as [-> _].
      intros E; injection E; auto.
    + apply float_raises in Eprice. subst e1. intros E; injection E; auto.
Qed.

Lemma card_exception_order_unrated :
  @card_fields Fixture.plain_runtime Fixture.root_url
     (mkPod (Some (mkHeading (Some (mkTag [(str "href", str "x.html")]))))
            (Some (str "1.50")) None None)
  = Raise TypeError.
Proof.
  refine (proj1 (proj2 (proj2
            (@card_exception_order Fixture.plain_runtime Fixture.root_url
               (mkPod (Some (mkHeading
                               (Some (mkTag [(str "href", str "x.html")]))))
                      (Some (str "1.50")) None None)
               (mkHeading (Some (mkTag [(str "href", str "x.html")])))
               (mkTag [(str "href", str "x.html")])
               (str "http://example.com/x.html") _ _ _)))
            (str "1.50") (nearest_binary64 1.50) _ _ _);
    vm_compute; reflexivity.
Defined.

Section Frame.
Context {runtime : Runtime}.
Variables fetch1 fetch2 : text -> option BeautifulSoup.

Lemma scrape_card_frame (url : text) (art : product_pod) (log log' : list text)
    (x : result row) :
  scrape_card fetch1 url art log = (log', x) ->
  (forall u, In u log' -> fetch1 u = fetch2 u) ->
  scrape_card fetch2 url art log = (log', x).
Proof.
  unfold scrape_card, bind_crawl, lift, get_soup, ret.
  destruct (card_fields url art) as [p|e]; [|intros E _; exact E].
  intros E Hagree.
  assert (Ep : fetch1 (p_detail_url p) = fetch2 (p_detail_url p)).
  { apply Hagree.
    destruct (fetch1 (p_detail_url p)); injection E as <- _;
      apply in_or_app; right; left; reflexivity. }
  rewrite <- Ep. exact E.
Qed.

Lemma scrape_cards_frame (url : text) (arts : list product_pod)
    (rows : list row) (log log' : list text) (x : result (list row)) :
  scrape_cards fetch1 url arts rows log = (log', x) ->
  (forall u, In u log' -> fetch1 u = fetch2 u) ->
  scrape_cards fetch2 url arts rows log = (log', x).
Proof.
  revert rows log. induction arts as [|art arts IH]; intros rows log.
  - intros E _. exact E.
  - cbn [scrape_cards]. unfold bind_crawl.
    destruct (scrape_card fetch1 url art log) as [log1 [r|e]] eqn:Ec.
    + intros E Hagree.
      destruct (scrape_cards_log fetch1 url arts _ _ _ _ E) as (ext & -> & _).
      rewrite (scrape_card_frame url art log log1 (Ok r) Ec).
      * apply IH; assumption.
      * intros u Hu. apply Hagree. apply in_or_app. left. exact Hu.
    + intros E Hagree. injection E as <- <-.
      rewrite (scrape_card_frame url art log log1 (Raise e) Ec Hagree).
      reflexivity.
Qed.

End Frame.

(** X15.  A crawl depends on the site only through the pages it requests: a
    second site that serves the same documents at the URLs the run requested
    gives the same run, whatever else it serves. *)
Theorem crawl_reads_only_requested_pages {runtime : Runtime}
    (fetch1 fetch2 : text -> option BeautifulSoup) (fuel : nat)
    (start_url : text) (log : list text) (x : option (result (list row))) :
  scrape_books fetch1 fuel start_url = (log, x) ->
  (forall u, In u log -> fetch1 u = fetch2 u) ->
  scrape_books fetch2 fuel start_url = (log, x).
Proof.
  unfold scrape_books. rename start_url into url, log into log'.
  generalize (@nil text). generalize (@nil row).
  intros rows log. revert url rows log.
  induction fuel as [|fuel IH]; intros url rows log.
  - intros E _. exact E.
  - rewrite !scrape_loop_S. intros E Hagree.
    assert (Hurl : fetch1 url = fetch2 url).
    { apply Hagree.
      destruct (fetch1 url) as [soup|].
      - destruct (scrape_cards fetch1 _ _ _ _) as [log2 y] eqn:Ec.
        apply scrape_cards_log in Ec as (ext & -> & _).
        assert (Hin : forall l, In url (((log ++ [url]) ++ ext) ++ l)).
        { intros l. apply in_or_app. left. apply in_or_app. left.
          apply in_or_app. right. left. reflexivity. }
        destruct y as [rows'|e].
        + destruct (next_a soup) as [next|].
          * destruct (urljoin url _) as [url'|e].
            -- rewrite scrape_loop_resumed in E. unfold resumed in E.
               injection E as <- _. apply Hin.
            -- injection E as <- _. rewrite <- (app_nil_r (_ ++ ext)).
               apply Hin.
          * injection E as <- _. rewrite <- (app_nil_r (_ ++ ext)).
            apply Hin.
        + injection E as <- _. rewrite <- (app_nil_r (_ ++ ext)). apply Hin.
      - injection E as <- _. apply in_or_app. right. left. reflexivity. }
    rewrite <- Hurl.
    destruct (fetch1 url) as [soup|]; [|exact E].
    destruct (scrape_cards fetch1 _ _ _ _) as [log2 y] eqn:Ec.
    assert (Hlog2 : forall u, In u log2 -> fetch1 u = fetch2 u).
    { intros u Hu. apply Hagree.
      destruct y as [rows'|e].
      - destruct (next_a soup) as [next|].
        + destruct (urljoin url _) as [url'|e].
          * rewrite scrape_loop_resumed in E. unfold resumed in E.
            injection E as <- _. apply in_or_app. left. exact Hu.
          * injection E as <- _. exact Hu.
        + injection E as <- _. exact Hu.
      - injection E as <- _. exact Hu. }
    rewrite (scrape_cards_frame fetch1 fetch2 url _ rows _ log2 y Ec Hlog2).
    destruct y as [rows'|e]; [|exact E].
    destruct (next_a soup) as [next|]; [|exact E].
    destruct (urljoin url _) as [url'|e]; [|exact E].
    apply IH; assumption.
Qed.

Lemma crawl_reads_only_requested_pages_on_fixture :
  @scrape_books Fixture.plain_runtime (Fixture.serve Carousel.enlarged) 3
     Fixture.root_url
  = ([Fixture.root_url; Fixture.attic_url; Fixture.page2_url;
      Fixture.wake_url],
     Some (Ok [Fixture.attic_row; Fixture.wake_row])).
Proof.
  apply (@crawl_reads_only_requested_pages Fixture.plain_runtime
           (Fixture.serve Fixture.books) (Fixture.serve Carousel.enlarged)).
  - vm_compute. reflexivity.
  - intros u [<-|[<-|[<-|[<-|[]]]]]; vm_compute; reflexivity.
Defined.

(** X16.  A crawl is its first page followed by the crawl from the page its
    next link resolves to: when the cards of the list page at a URL have their
    rows, the run from that URL is the run from the next URL with these rows
    in front of its rows, and the request of the list page and of the detail
    pages of these rows in front of its requests. *)
Theorem crawl_is_first_page_then_rest `{Runtime}
    (fetch : text -> option BeautifulSoup) (fuel : nat) (url url' : text)
    (soup : BeautifulSoup) (next : Tag) (new : list row) :
  fetch url = Some soup ->
  Forall2 (card_row fetch url) (product_pods soup) new ->
  next_a soup = Some next ->
  urljoin url (get next (str "href") []) = Ok url' ->
  scrape_books fetch (S fuel) url
  = resumed new (url :: map DetailURL new) (scrape_books fetch fuel url').
Proof.
  intros Ef Hnew En Eu. unfold scrape_books.
  rewrite scrape_loop_S, Ef.
  rewrite (proj2 (scrape_cards_ok fetch url (product_pods soup) []
                    ([] ++ new) ([] ++ [url])
                    (([] ++ [url]) ++ map DetailURL new)));
    [|exists new; repeat split; exact Hnew].
  rewrite En, Eu. apply scrape_loop_resumed.
Qed.

Lemma crawl_is_first_page_then_rest_on_fixture :
  @scrape_books Fixture.plain_runtime (Fixture.serve Fixture.books) 2
     Fixture.root_url
  = resumed [Fixture.attic_row]
      (Fixture.root_url :: map DetailURL [Fixture.attic_row])
      (@scrape_books Fixture.plain_runtime (Fixture.serve Fixture.books) 1
         Fixture.page2_url).
Proof.
  apply (@crawl_is_first_page_then_rest Fixture.plain_runtime
           (Fixture.serve Fixture.books) 1 Fixture.root_url Fixture.page2_url
           Fixture.root_page
           (mkTag [(str "href", str "catalogue/page-2.html")])
           [Fixture.attic_row]).
  - vm_compute. reflexivity.
  - constructor; [|constructor].
    exists (mkPartial (str "A Light in the Attic") (nearest_binary64 51.77) (Some 3) None
                      Fixture.attic_url), Fixture.attic_page.
    vm_compute. repeat split.
  - reflexivity.
  - vm_compute. reflexivity.
Defined.

Lemma page_turn_step `{Runtime} (fetch : text -> option BeautifulSoup)
    (url url' : text) :
  page_turns fetch url url' ->
  forall fuel rows log, exists rows' log',
    scrape_loop fetch (S fuel) url rows log
    = scrape_loop fetch fuel url' rows' log'.
Proof.
  intros (soup & next & new & Ef & Hnew & En & Eu) fuel rows log.
  exists (rows ++ new), ((log ++ [url]) ++ map DetailURL new).
  rewrite scrape_loop_S, Ef.
  rewrite (proj2 (scrape_cards_ok fetch url (product_pods soup) rows
                    (rows ++ new) (log ++ [url])
                    ((log ++ [url]) ++ map DetailURL new)));
    [|exists new; repeat split; exact Hnew].
  rewrite En, Eu. reflexivity.
Qed.

(** X17.  The walk does not notice that it has been somewhere before: when the
    next links lead from a list page back to it, over any number of pages
    whose cards all have their rows, the walk from that page does not end in
    any number of rounds. *)
Theorem pagination_cycle_never_ends `{Runtime}
    (fetch : text -> option BeautifulSoup) (url : text) :
  clos_trans text (page_turns fetch) url url ->
  forall fuel rows log, snd (scrape_loop fetch fuel url rows log) = None.
Proof.
  intros Hcycle fuel. revert url Hcycle.
  induction fuel as [|fuel IH]; intros url Hcycle rows log; [reflexivity|].
  apply clos_trans_t1n in Hcycle.
  assert (Hstep : exists url', page_turns fetch url url'
                               /\ clos_trans text (page_turns fetch) url' url').
  { inversion Hcycle as [y Hy | y z Hy Hrest]; subst.
    - exists url. split; [exact Hy | apply t_step; exact Hy].
    - exists y. split; [exact Hy|].
      apply clos_t1n_trans in Hrest.
      eapply t_trans; [exact Hrest | apply t_step; exact Hy]. }
  destruct Hstep as (url' & Hturn & Hcycle').
  destruct (page_turn_step fetch url url' Hturn fuel rows log)
    as (rows' & log' & E).
  rewrite E. apply IH. exact Hcycle'.
Qed.

Lemma pagination_cycle_on_carousel :
  snd (@scrape_loop Fixture.plain_runtime (Fixture.serve Carousel.pages) 40
         Carousel.first_url [] []) = None.
Proof.
  apply (@pagination_cycle_never_ends Fixture.plain_runtime).
  apply (t_trans _ _ _ Carousel.second_url).
  - apply t_step.
    exists (mkSoup [] (Some (mkTag [(str "href", str "page-2.html")])) None []),
           (mkTag [(str "href", str "page-2.html")]), [].
    split; [vm_compute; reflexivity|].
    split; [constructor|].
    split; [reflexivity | vm_compute; reflexivity].
  - apply t_step.
    exists (mkSoup [] (Some (mkTag [(str "href", str "page-1.html")])) None []),
           (mkTag [(str "href", str "page-1.html")]), [].
    split; [vm_compute; reflexivity|].
    split; [constructor|].
    split; [reflexivity | vm_compute; reflexivity].
Defined.
